(** * kdbus: endpoint policy checks and connection metadata

    A shallow embedding of [endpoint.c] (the policy checks an endpoint makes
    for SEE, TALK and OWN) and of [metadata.c] (the metadata snapshot that
    is grown item by item), with the properties of the specification proved
    over it.

    Conventions.
    - [int] results are [Z]; a negative value is [-errno].
    - [size_t] and [u64] are 64-bit: values are [Z] and every arithmetic
      step of the source is followed by [wrap64].
    - A pointer into the metadata buffer is the offset from [meta->data].
    - A C string is the list of its bytes before the terminating NUL.
    - Locks ([down_read], [mutex_lock]) have no effect on the result of a
      sequential run and are left out. *)

From Stdlib Require Import ZArith List Lia Bool.
From coqutil Require Import Byte Word.LittleEndianList.
Import ListNotations.
Local Open Scope Z_scope.

(** ** errno values of Linux (asm-generic/errno-base.h, errno.h) *)

Definition EPERM : Z := 1.
Definition ENOENT : Z := 2.
Definition ENOMEM : Z := 12.
Definition ENAMETOOLONG : Z := 36.
Definition EOPNOTSUPP : Z := 95.

(** ** Data shared by both files *)

Definition cstring := list byte.

(** [struct cred], the fields the checks read. *)
Record cred := {
  uid : Z;
  gid : Z;
  fsuid : Z
}.

Record kdbus_name_entry := {
  name : cstring
}.

(** [struct kdbus_conn], the fields the two files read. *)
Record kdbus_conn := {
  conn_cred : cred;
  privileged : bool;
  names_list : list kdbus_name_entry
}.

Definition uid_eq (a b : Z) : bool := a =? b.

(** ** endpoint.c *)

Section Endpoint.

(** [policy.c] is not part of the excerpt: the policy database and its
    three checks are parameters of the endpoint code. *)
Variable kdbus_policy_db : Type.
Variable kdbus_policy_check_see_access_unlocked :
  kdbus_policy_db -> cred -> cstring -> Z.
Variable kdbus_policy_check_talk_access :
  kdbus_policy_db -> kdbus_conn -> kdbus_conn -> Z.
Variable kdbus_policy_check_own_access :
  kdbus_policy_db -> cred -> cstring -> Z.

Record kdbus_bus := {
  bus_policy_db : kdbus_policy_db
}.

Record kdbus_ep := {
  has_policy : bool;
  policy_db : kdbus_policy_db;
  bus : kdbus_bus
}.

Definition kdbus_ep_policy_check_see_access_unlocked
    (ep : kdbus_ep) (conn : kdbus_conn) (nm : cstring) : Z :=
  if negb (has_policy ep) then 0
  else
    let ret := kdbus_policy_check_see_access_unlocked
                 (policy_db ep) (conn_cred conn) nm in
    (* don't leak hints whether a name exists on a custom endpoint. *)
    if ret =? - EPERM then - ENOENT
    else ret.

Definition kdbus_ep_policy_check_see_access
    (ep : kdbus_ep) (conn : kdbus_conn) (nm : cstring) : Z :=
  kdbus_ep_policy_check_see_access_unlocked ep conn nm.

(** The body of [list_for_each_entry] in [kdbus_ep_policy_check_src_names]:
    [ret] is the value it has when the loop is entered at [l]. *)
Fixpoint src_names_loop (ep : kdbus_ep) (conn_dst : kdbus_conn)
    (l : list kdbus_name_entry) (ret : Z) : Z :=
  match l with
  | [] => ret
  | e :: l' =>
      let ret := kdbus_ep_policy_check_see_access_unlocked
                   ep conn_dst (name e) in
      if ret =? 0 then ret
      else src_names_loop ep conn_dst l' ret
  end.

Definition kdbus_ep_policy_check_src_names
    (ep : kdbus_ep) (conn_src conn_dst : kdbus_conn) : Z :=
  let ret := - ENOENT in
  (* This is not a custom endpoint, nothing to do *)
  if negb (has_policy ep) then 0
  else src_names_loop ep conn_dst (names_list conn_src) ret.

Definition kdbus_ep_policy_check_talk_access
    (ep : kdbus_ep) (conn_src conn_dst : kdbus_conn) : Z :=
  let fallback :=
    (* Then check if it satisfies the implicit policies *)
    if privileged conn_src then 0
    else if uid_eq (fsuid (conn_cred conn_src)) (uid (conn_cred conn_dst))
    then 0
    else
      (* Fallback to the default endpoint policy *)
      kdbus_policy_check_talk_access
        (bus_policy_db (bus ep)) conn_src conn_dst in
  (* First check the custom endpoint with its policies *)
  if has_policy ep then
    let ret := kdbus_policy_check_talk_access
                 (policy_db ep) conn_src conn_dst in
    (* Don't leak hints whether a name exists on a custom ep *)
    let ret := if ret =? - EPERM then - ENOENT else ret in
    if ret <? 0 then ret
    else fallback
  else fallback.

Definition kdbus_ep_policy_check_own_access
    (ep : kdbus_ep) (conn : kdbus_conn) (nm : cstring) : Z :=
  let fallback :=
    if privileged conn then 0
    else kdbus_policy_check_own_access
           (bus_policy_db (bus ep)) (conn_cred conn) nm in
  if has_policy ep then
    let ret := kdbus_policy_check_own_access
                 (policy_db ep) (conn_cred conn) nm in
    if ret <? 0 then ret
    else fallback
  else fallback.

End Endpoint.

Arguments has_policy {kdbus_policy_db} _.
Arguments policy_db {kdbus_policy_db} _.
Arguments bus {kdbus_policy_db} _.
Arguments bus_policy_db {kdbus_policy_db} _.
Arguments Build_kdbus_ep {kdbus_policy_db} _ _ _.
Arguments Build_kdbus_bus {kdbus_policy_db} _.

(** ** Machine integers and the helper macros *)

Definition wrap64 (z : Z) : Z := z mod 2 ^ 64.
Definition wrap32 (z : Z) : Z := z mod 2 ^ 32.

(** test/kdbus-util.h: [#define KDBUS_ALIGN8(l) (((l) + 7) & ~7)]. *)
Definition KDBUS_ALIGN8 (l : Z) : Z :=
  Z.land (wrap64 (l + 7)) (wrap64 (Z.lnot 7)).

(** Modelled from the spec: [struct kdbus_item] is declared in kdbus.h,
    which is absent.  An item is "type tag, self-declared total size,
    payload"; the fields are taken as [u64 size; u64 type; data[]], so that
    [offsetof(struct kdbus_item, data)] is 16. *)
Definition item_size_field : Z := 0.
Definition item_type_field : Z := 8.
Definition item_data_field : Z := 16.

Definition KDBUS_ITEM_HEADER_SIZE : Z := item_data_field.
Definition KDBUS_PART_HEADER_SIZE : Z := item_data_field.

(** [#define KDBUS_ITEM_SIZE(s) KDBUS_ALIGN8((s) + KDBUS_ITEM_HEADER_SIZE)] *)
Definition KDBUS_ITEM_SIZE (s : Z) : Z :=
  KDBUS_ALIGN8 (wrap64 (s + KDBUS_ITEM_HEADER_SIZE)).

(** linux/bitops.h, linux/log2.h:
    [roundup_pow_of_two(n)] is [1UL << fls_long(n - 1)]. *)
Definition fls_long (x : Z) : Z :=
  if x =? 0 then 0 else Z.log2 x + 1.

Definition roundup_pow_of_two (n : Z) : Z :=
  wrap64 (Z.shiftl 1 (fls_long (wrap64 (n - 1)))).

(** Constants of the Linux kernel this code was written for (x86, 3.13). *)
Definition PAGE_SIZE : Z := 4096.
Definition TASK_COMM_LEN : Z := 16.
Definition _KERNEL_CAPABILITY_U32S : nat := 2.
Definition CAP_LAST_CAP : Z := 36.
Definition CAP_TO_INDEX (x : Z) : Z := Z.shiftr x 5.
Definition CAP_TO_MASK (x : Z) : Z := Z.shiftl 1 (Z.land x 31).

(** ** Memory blocks *)

Definition NUL : byte := Byte.x00.

Definition zeros (n : Z) : list byte := repeat NUL (Z.to_nat n).

(** Bytes [off .. off + n) of a block. *)
Definition mem_read (buf : list byte) (off n : Z) : list byte :=
  firstn (Z.to_nat n) (skipn (Z.to_nat off) buf).

(** [memcpy(buf + off, bs, length bs)].  A write that does not fit in the
    block is undefined in C; here it leaves the block as it is, and
    [append_item_slot_fits] shows that the code never makes one. *)
Definition mem_write (buf : list byte) (off : Z) (bs : list byte) : list byte :=
  if (0 <=? off) && (off + Z.of_nat (length bs) <=? Z.of_nat (length buf))
  then firstn (Z.to_nat off) buf ++ bs
       ++ skipn (Z.to_nat off + length bs) buf
  else buf.

Definition memset (buf : list byte) (off : Z) (c : byte) (n : Z) : list byte :=
  mem_write buf off (repeat c (Z.to_nat n)).

Definition load_u64 (buf : list byte) (off : Z) : Z :=
  le_combine (mem_read buf off 8).

Definition u64_bytes (v : Z) : list byte := le_split 8 v.
Definition u32_bytes (v : Z) : list byte := le_split 4 v.

Definition strlen (s : cstring) : Z := Z.of_nat (length s).

(** The bytes of a C string in memory, with its terminator. *)
Definition str_bytes (s : cstring) : list byte := s ++ [NUL].

(** ** The declarations of kdbus.h used by metadata.c

    kdbus.h is absent.  The attach flags and the item types it declares are
    taken as parameters: every attach flag is one bit of a [u64], no two
    flags or item types are the same.  The three [CONFIG_] switches of the
    kernel build are parameters as well. *)

Definition is_flag (f : Z) : bool :=
  existsb (fun k => f =? 2 ^ Z.of_nat k) (seq 0 64).

Fixpoint distinct (l : list Z) : bool :=
  match l with
  | [] => true
  | x :: l' => negb (existsb (Z.eqb x) l') && distinct l'
  end.

Class kdbus_h := {
  KDBUS_ATTACH_TIMESTAMP : Z;
  KDBUS_ATTACH_CREDS : Z;
  KDBUS_ATTACH_NAMES : Z;
  KDBUS_ATTACH_COMM : Z;
  KDBUS_ATTACH_EXE : Z;
  KDBUS_ATTACH_CMDLINE : Z;
  KDBUS_ATTACH_CAPS : Z;
  KDBUS_ATTACH_CGROUP : Z;
  KDBUS_ATTACH_AUDIT : Z;
  KDBUS_ATTACH_SECLABEL : Z;
  KDBUS_ITEM_TIMESTAMP : Z;
  KDBUS_ITEM_CREDS : Z;
  KDBUS_ITEM_NAMES : Z;
  KDBUS_ITEM_TID_COMM : Z;
  KDBUS_ITEM_PID_COMM : Z;
  KDBUS_ITEM_EXE : Z;
  KDBUS_ITEM_CMDLINE : Z;
  KDBUS_ITEM_CAPS : Z;
  KDBUS_ITEM_CGROUP : Z;
  KDBUS_ITEM_AUDIT : Z;
  KDBUS_ITEM_SECLABEL : Z;
  CONFIG_CGROUPS : bool;
  CONFIG_AUDITSYSCALL : bool;
  CONFIG_SECURITY : bool;
  attach_flags_ok :
    (let l := [KDBUS_ATTACH_TIMESTAMP; KDBUS_ATTACH_CREDS; KDBUS_ATTACH_NAMES;
               KDBUS_ATTACH_COMM; KDBUS_ATTACH_EXE; KDBUS_ATTACH_CMDLINE;
               KDBUS_ATTACH_CAPS; KDBUS_ATTACH_CGROUP; KDBUS_ATTACH_AUDIT;
               KDBUS_ATTACH_SECLABEL] in
     forallb is_flag l && distinct l) = true;
  item_types_ok :
    (let l := [KDBUS_ITEM_TIMESTAMP; KDBUS_ITEM_CREDS; KDBUS_ITEM_NAMES;
               KDBUS_ITEM_TID_COMM; KDBUS_ITEM_PID_COMM; KDBUS_ITEM_EXE;
               KDBUS_ITEM_CMDLINE; KDBUS_ITEM_CAPS; KDBUS_ITEM_CGROUP;
               KDBUS_ITEM_AUDIT; KDBUS_ITEM_SECLABEL] in
     forallb (fun t => (0 <=? t) && (t <? 2 ^ 64)) l && distinct l) = true
}.

(** One header that meets the requirements, with every switch on; the
    examples below are run with it. *)
Definition sample_kdbus_h : kdbus_h := {|
  KDBUS_ATTACH_TIMESTAMP := 1;
  KDBUS_ATTACH_CREDS := 2;
  KDBUS_ATTACH_NAMES := 4;
  KDBUS_ATTACH_COMM := 8;
  KDBUS_ATTACH_EXE := 16;
  KDBUS_ATTACH_CMDLINE := 32;
  KDBUS_ATTACH_CAPS := 64;
  KDBUS_ATTACH_CGROUP := 128;
  KDBUS_ATTACH_AUDIT := 256;
  KDBUS_ATTACH_SECLABEL := 512;
  KDBUS_ITEM_TIMESTAMP := 4098;
  KDBUS_ITEM_CREDS := 4099;
  KDBUS_ITEM_NAMES := 4096;
  KDBUS_ITEM_TID_COMM := 4101;
  KDBUS_ITEM_PID_COMM := 4100;
  KDBUS_ITEM_EXE := 4102;
  KDBUS_ITEM_CMDLINE := 4103;
  KDBUS_ITEM_CAPS := 4105;
  KDBUS_ITEM_CGROUP := 4104;
  KDBUS_ITEM_AUDIT := 4107;
  KDBUS_ITEM_SECLABEL := 4106;
  CONFIG_CGROUPS := true;
  CONFIG_AUDITSYSCALL := true;
  CONFIG_SECURITY := true;
  attach_flags_ok := eq_refl;
  item_types_ok := eq_refl
|}.

(** ** metadata.c: the snapshot *)

(** [struct kdbus_meta], the fields metadata.c uses.  [data] is [None] for
    a NULL pointer, else the block of [allocated_size] bytes.  [src_names]
    points into the block that was current when the NAMES item was written. *)
Record kdbus_meta := {
  attached : Z;
  data : option (list byte);
  size : Z;
  allocated_size : Z;
  src_names : option Z;
  src_names_len : Z
}.

(** A snapshot as its creator leaves it: all fields zero. *)
Definition kdbus_meta_zero : kdbus_meta := {|
  attached := 0;
  data := None;
  size := 0;
  allocated_size := 0;
  src_names := None;
  src_names_len := 0
|}.

Definition set_attached (m : kdbus_meta) (v : Z) : kdbus_meta :=
  {| attached := v; data := data m; size := size m;
     allocated_size := allocated_size m;
     src_names := src_names m; src_names_len := src_names_len m |}.

Definition set_block (m : kdbus_meta) (d : list byte) (n : Z) : kdbus_meta :=
  {| attached := attached m; data := Some d; size := size m;
     allocated_size := n;
     src_names := src_names m; src_names_len := src_names_len m |}.

Definition set_size (m : kdbus_meta) (v : Z) : kdbus_meta :=
  {| attached := attached m; data := data m; size := v;
     allocated_size := allocated_size m;
     src_names := src_names m; src_names_len := src_names_len m |}.

Definition set_src_names (m : kdbus_meta) (p : Z) (len : Z) : kdbus_meta :=
  {| attached := attached m; data := data m; size := size m;
     allocated_size := allocated_size m;
     src_names := Some p; src_names_len := len |}.

(** A store through a pointer into [meta->data]. *)
Definition meta_write (m : kdbus_meta) (off : Z) (bs : list byte) : kdbus_meta :=
  match data m with
  | Some d =>
      {| attached := attached m; data := Some (mem_write d off bs);
         size := size m; allocated_size := allocated_size m;
         src_names := src_names m; src_names_len := src_names_len m |}
  | None => m
  end.

(** What the allocator does for one call of [kdbus_meta_append_item]: whether
    [kzalloc] and [kmalloc] of a given size succeed, and what the block
    [kmalloc] returns holds before it is written. *)
Record allocator := {
  kzalloc_ok : Z -> bool;
  kmalloc_ok : Z -> bool;
  kmalloc_junk : nat -> byte
}.

Definition kmalloc_block (a : allocator) (n : Z) : list byte :=
  map (kmalloc_junk a) (seq 0 (Z.to_nat n)).

(** A [struct kdbus_item *] result: an item of the buffer or [ERR_PTR]. *)
Inductive item_ptr :=
| Item (off : Z)
| ERR_PTR (err : Z).

Definition kdbus_meta_append_item (a : allocator) (meta : kdbus_meta)
    (extra_size : Z) : item_ptr * kdbus_meta :=
  (* get new metadata buffer, pre-allocate at least 512 bytes *)
  let first :=
    match data meta with
    | None =>
        let sz := roundup_pow_of_two (wrap64 (256 + KDBUS_ALIGN8 extra_size)) in
        if kzalloc_ok a sz then Some (set_block meta (zeros sz) sz)
        else None
    | Some _ => Some meta
    end in
  match first with
  | None => (ERR_PTR (- ENOMEM), meta)
  | Some meta =>
      (* double the pre-allocated buffer size if needed *)
      let sz := wrap64 (size meta + KDBUS_ALIGN8 extra_size) in
      let grown :=
        if allocated_size meta <? sz then
          let sz := roundup_pow_of_two sz in
          let size_diff := wrap64 (sz - allocated_size meta) in
          if kmalloc_ok a sz then
            let old := match data meta with Some d => d | None => [] end in
            let new := kmalloc_block a sz in
            let new := mem_write new 0 (mem_read old 0 (size meta)) in
            let new := memset new (allocated_size meta) NUL size_diff in
            Some (set_block meta new sz)
          else None
        else Some meta in
      match grown with
      | None => (ERR_PTR (- ENOMEM), meta)
      | Some meta =>
          (* insert new record *)
          let item := size meta in
          (Item item,
           set_size meta (wrap64 (size meta + KDBUS_ALIGN8 extra_size)))
      end
  end.

(** [item->size = v], [item->type = v] and [memcpy(item->data + pos, ...)]. *)
Definition item_set_size (m : kdbus_meta) (item v : Z) : kdbus_meta :=
  meta_write m (item + item_size_field) (u64_bytes v).

Definition item_set_type (m : kdbus_meta) (item v : Z) : kdbus_meta :=
  meta_write m (item + item_type_field) (u64_bytes v).

Definition item_set_data (m : kdbus_meta) (item pos : Z) (bs : list byte)
    : kdbus_meta :=
  meta_write m (item + item_data_field + pos) bs.

(** ** metadata.c: what one call reads from the kernel *)

(** The places where one call of [kdbus_meta_append] allocates memory, named
    by the item being appended.  Each is reached at most once in a call. *)
Inductive call_site :=
| at_timestamp | at_cred | at_src_names | at_tid_comm | at_pid_comm
| at_exe | at_cmdline | at_caps | at_cgroup | at_audit | at_seclabel.

(** [struct mm_struct]: [exe_file] is the path the file resolves to, [None]
    when [mm->exe_file] is NULL. *)
Record mm_struct := {
  exe_file : option cstring;
  arg_start : Z;
  arg_end : Z
}.

(** The kernel as [current] sees it during one call. *)
Record world := {
  alloc_at : call_site -> allocator;
  get_free_page_ok : call_site -> bool;
  ktime_get_ts : Z;
  ktime_get_real_ts : Z;
  current_uid : Z;
  current_gid : Z;
  current_pid : Z;
  current_tgid : Z;
  current_start_time : Z;
  group_leader_comm : cstring;
  current_comm : cstring;
  current_mm : option mm_struct;
  (* the bytes [copy_from_user] can read at an address, at most [n] asked *)
  user_memory : Z -> Z -> list byte;
  cap_inheritable : list Z;
  cap_permitted : list Z;
  cap_effective : list Z;
  cap_bset : list Z;
  (* result and path of [task_cgroup_path] *)
  task_cgroup_path : Z * cstring;
  audit_loginuid : Z;
  audit_sessionid : Z;
  (* result and label of [security_secid_to_secctx]; [None] is NULL *)
  security_secid_to_secctx : Z * option (list byte)
}.

(** [get_task_comm]: [task->comm] is a NUL-terminated [char[TASK_COMM_LEN]]. *)
Definition get_task_comm (comm : cstring) : cstring :=
  firstn (Z.to_nat (TASK_COMM_LEN - 1)) comm.

(** [d_path(path, buf, buflen)]: the path is written at the end of the
    buffer; the result is where it starts, or an error when it does not
    fit. *)
Definition d_path (path : cstring) (buf : list byte) (buflen : Z)
    : item_ptr * list byte :=
  let n := strlen path + 1 in
  if n <=? buflen then
    (Item (buflen - n), mem_write buf (buflen - n) (str_bytes path))
  else (ERR_PTR (- ENAMETOOLONG), buf).

(** [copy_from_user(to, from, n)]: the number of bytes that could not be
    copied, and the destination afterwards. *)
Definition copy_from_user (w : world) (to : list byte) (from n : Z)
    : Z * list byte :=
  let got := firstn (Z.to_nat n) (user_memory w from n) in
  (n - Z.of_nat (length got), mem_write to 0 got).

(** Modelled from the spec: the payload structs of kdbus.h, which is absent.
    TIMESTAMP is "monotonic + wall-clock time pair", CREDS is "uid, gid, pid,
    tid, process start time", AUDIT is "login-uid + session-id"; every field
    is taken as a [u64], in that order. *)
Record kdbus_creds := {
  creds_uid : Z;
  creds_gid : Z;
  creds_pid : Z;
  creds_tid : Z;
  creds_starttime : Z
}.

Definition kdbus_creds_bytes (c : kdbus_creds) : list byte :=
  u64_bytes (creds_uid c) ++ u64_bytes (creds_gid c) ++ u64_bytes (creds_pid c)
  ++ u64_bytes (creds_tid c) ++ u64_bytes (creds_starttime c).

Record kdbus_audit := {
  loginuid : Z;
  sessionid : Z
}.

Definition kdbus_audit_bytes (a : kdbus_audit) : list byte :=
  u64_bytes (loginuid a) ++ u64_bytes (sessionid a).

Definition sizeof_kdbus_timestamp : Z := 16.
Definition sizeof_kdbus_creds : Z := 40.
Definition sizeof_kdbus_audit : Z := 16.

(** ** metadata.c: the producers *)

Section Metadata.

Context {K : kdbus_h}.

Definition kdbus_meta_append_timestamp (w : world) (meta : kdbus_meta)
    : Z * kdbus_meta :=
  let sz := KDBUS_ITEM_SIZE sizeof_kdbus_timestamp in
  match kdbus_meta_append_item (alloc_at w at_timestamp) meta sz with
  | (ERR_PTR err, meta) => (err, meta)
  | (Item item, meta) =>
      let meta := item_set_type meta item KDBUS_ITEM_TIMESTAMP in
      let meta := item_set_size meta item sz in
      let meta := item_set_data meta item 0 (u64_bytes (ktime_get_ts w)) in
      let meta := item_set_data meta item 8
                    (u64_bytes (ktime_get_real_ts w)) in
      (0, meta)
  end.

Definition kdbus_meta_append_data (a : allocator) (meta : kdbus_meta)
    (type : Z) (buf : list byte) (len : Z) : Z * kdbus_meta :=
  if len =? 0 then (0, meta)
  else
    let sz := KDBUS_ITEM_SIZE len in
    match kdbus_meta_append_item a meta sz with
    | (ERR_PTR err, meta) => (err, meta)
    | (Item item, meta) =>
        let meta := item_set_type meta item type in
        let meta := item_set_size meta item
                      (wrap64 (KDBUS_PART_HEADER_SIZE + len)) in
        let meta := item_set_data meta item 0 (mem_read buf 0 len) in
        (0, meta)
    end.

Definition kdbus_meta_append_str (a : allocator) (meta : kdbus_meta)
    (type : Z) (str : cstring) : Z * kdbus_meta :=
  kdbus_meta_append_data a meta type (str_bytes str)
    (wrap64 (strlen str + 1)).

(** The second loop of [kdbus_meta_append_src_names]: [strcpy] of every
    name, the position moving on. *)
Fixpoint copy_names (meta : kdbus_meta) (item : Z)
    (l : list kdbus_name_entry) (pos : Z) : kdbus_meta * Z :=
  match l with
  | [] => (meta, pos)
  | e :: l' =>
      let meta := item_set_data meta item pos (str_bytes (name e)) in
      copy_names meta item l' (wrap64 (pos + (strlen (name e) + 1)))
  end.

Definition names_strsize (l : list kdbus_name_entry) : Z :=
  fold_left (fun strsize e => wrap64 (strsize + (strlen (name e) + 1))) l 0.

Definition kdbus_meta_append_src_names (w : world) (meta : kdbus_meta)
    (conn : option kdbus_conn) : Z * kdbus_meta :=
  match conn with
  | None => (0, meta)
  | Some conn =>
      let strsize := names_strsize (names_list conn) in
      (* no names? then don't do anything *)
      if strsize =? 0 then (0, meta)
      else
        let sz := KDBUS_ITEM_SIZE strsize in
        match kdbus_meta_append_item (alloc_at w at_src_names) meta sz with
        | (ERR_PTR err, meta) => (err, meta)
        | (Item item, meta) =>
            let meta := item_set_type meta item KDBUS_ITEM_NAMES in
            let meta := item_set_size meta item
                          (wrap64 (KDBUS_PART_HEADER_SIZE + strsize)) in
            let '(meta, pos) := copy_names meta item (names_list conn) 0 in
            (0, set_src_names meta (item + item_data_field) pos)
        end
  end.

Definition kdbus_meta_append_cred (w : world) (meta : kdbus_meta)
    : Z * kdbus_meta :=
  let sz := KDBUS_ITEM_SIZE sizeof_kdbus_creds in
  let creds := {| creds_uid := current_uid w;
                  creds_gid := current_gid w;
                  creds_pid := current_pid w;
                  creds_tid := current_tgid w;
                  creds_starttime := current_start_time w |} in
  match kdbus_meta_append_item (alloc_at w at_cred) meta sz with
  | (ERR_PTR err, meta) => (err, meta)
  | (Item item, meta) =>
      let meta := item_set_type meta item KDBUS_ITEM_CREDS in
      let meta := item_set_size meta item sz in
      let meta := item_set_data meta item 0
                    (mem_read (kdbus_creds_bytes creds) 0 sizeof_kdbus_creds) in
      (0, meta)
  end.

Definition kdbus_meta_append_exe (w : world) (meta : kdbus_meta)
    : Z * kdbus_meta :=
  let exe_path :=
    match current_mm w with
    | Some mm => exe_file mm
    | None => None
    end in
  match exe_path with
  | Some exe_path =>
      if negb (get_free_page_ok w at_exe) then (- ENOMEM, meta)
      else
        let tmp := zeros PAGE_SIZE in
        match d_path exe_path tmp PAGE_SIZE with
        | (Item pathname, tmp) =>
            let len := wrap64 (PAGE_SIZE - pathname) in
            kdbus_meta_append_data (alloc_at w at_exe) meta KDBUS_ITEM_EXE
              (mem_read tmp pathname len) len
        | (ERR_PTR _, _) => (0, meta)
        end
  | None => (0, meta)
  end.

Definition kdbus_meta_append_cmdline (w : world) (meta : kdbus_meta)
    : Z * kdbus_meta :=
  if negb (get_free_page_ok w at_cmdline) then (- ENOMEM, meta)
  else
    let tmp := zeros PAGE_SIZE in
    match current_mm w with
    | Some mm =>
        if negb (arg_end mm =? 0) then
          let len := wrap64 (arg_end mm - arg_start mm) in
          let len := if PAGE_SIZE <? len then PAGE_SIZE else len in
          let '(ret, tmp) := copy_from_user w tmp (arg_start mm) len in
          if ret =? 0 then
            kdbus_meta_append_data (alloc_at w at_cmdline) meta
              KDBUS_ITEM_CMDLINE tmp len
          else (ret, meta)
        else (0, meta)
    | None => (0, meta)
    end.

(** The first loop of [kdbus_meta_append_caps] for one capability set. *)
Definition cap_copy (c : list Z) : list Z :=
  map (fun i => wrap32 (nth i c 0)) (seq 0 _KERNEL_CAPABILITY_U32S).

(** clear unused bits *)
Definition cap_clear_unused (c : list Z) : list Z :=
  map (fun i =>
         let v := nth i c 0 in
         if Z.of_nat i =? CAP_TO_INDEX CAP_LAST_CAP
         then Z.land v (wrap32 (CAP_TO_MASK (CAP_LAST_CAP + 1) - 1))
         else v)
      (seq 0 _KERNEL_CAPABILITY_U32S).

Definition caps_bytes (cap : list (list Z)) : list byte :=
  concat (map (fun c => concat (map u32_bytes c)) cap).

Definition sizeof_caps : Z := 4 * (Z.of_nat _KERNEL_CAPABILITY_U32S * 4).

Definition kdbus_meta_append_caps (w : world) (meta : kdbus_meta)
    : Z * kdbus_meta :=
  let cap := [cap_copy (cap_inheritable w); cap_copy (cap_permitted w);
              cap_copy (cap_effective w); cap_copy (cap_bset w)] in
  let cap := map cap_clear_unused cap in
  kdbus_meta_append_data (alloc_at w at_caps) meta KDBUS_ITEM_CAPS
    (caps_bytes cap) sizeof_caps.

Definition kdbus_meta_append_cgroup (w : world) (meta : kdbus_meta)
    : Z * kdbus_meta :=
  if negb (get_free_page_ok w at_cgroup) then (- ENOMEM, meta)
  else
    let ret := fst (task_cgroup_path w) in
    (* the path in the zeroed page, always NUL-terminated *)
    let tmp := firstn (Z.to_nat (PAGE_SIZE - 1)) (snd (task_cgroup_path w)) in
    if 0 <=? ret then
      kdbus_meta_append_str (alloc_at w at_cgroup) meta KDBUS_ITEM_CGROUP tmp
    else (ret, meta).

Definition kdbus_meta_append_audit (w : world) (meta : kdbus_meta)
    : Z * kdbus_meta :=
  let audit := {| loginuid := wrap32 (audit_loginuid w);
                  sessionid := wrap32 (audit_sessionid w) |} in
  kdbus_meta_append_data (alloc_at w at_audit) meta KDBUS_ITEM_AUDIT
    (kdbus_audit_bytes audit) sizeof_kdbus_audit.

Definition kdbus_meta_append_seclabel (w : world) (meta : kdbus_meta)
    : Z * kdbus_meta :=
  let ret := fst (security_secid_to_secctx w) in
  let label := snd (security_secid_to_secctx w) in
  if ret =? - EOPNOTSUPP then (0, meta)
  else if ret <? 0 then (ret, meta)
  else
    match label with
    | Some label =>
        let len := wrap32 (Z.of_nat (length label)) in
        if 0 <? len then
          kdbus_meta_append_data (alloc_at w at_seclabel) meta
            KDBUS_ITEM_SECLABEL label len
        else (ret, meta)
    | None => (ret, meta)
    end.

(** The block of [kdbus_meta_append] for KDBUS_ATTACH_COMM: two strings,
    the first failure leaves the block. *)
Definition kdbus_meta_append_comm (w : world) (meta : kdbus_meta)
    : Z * kdbus_meta :=
  let comm := get_task_comm (group_leader_comm w) in
  let '(ret, meta) := kdbus_meta_append_str (alloc_at w at_tid_comm) meta
                        KDBUS_ITEM_TID_COMM comm in
  if ret <? 0 then (ret, meta)
  else
    let comm := get_task_comm (current_comm w) in
    kdbus_meta_append_str (alloc_at w at_pid_comm) meta
      KDBUS_ITEM_PID_COMM comm.

(** The categories in the order [kdbus_meta_append] goes through them:
    the flag and the code that runs for it. *)
Definition producers (w : world) (conn : option kdbus_conn)
    : list (Z * (kdbus_meta -> Z * kdbus_meta)) :=
  [ (KDBUS_ATTACH_TIMESTAMP, kdbus_meta_append_timestamp w);
    (KDBUS_ATTACH_CREDS, kdbus_meta_append_cred w);
    (KDBUS_ATTACH_NAMES, fun meta => kdbus_meta_append_src_names w meta conn);
    (KDBUS_ATTACH_COMM, kdbus_meta_append_comm w);
    (KDBUS_ATTACH_EXE, kdbus_meta_append_exe w);
    (KDBUS_ATTACH_CMDLINE, kdbus_meta_append_cmdline w);
    (KDBUS_ATTACH_CAPS, kdbus_meta_append_caps w) ]
  ++ (if CONFIG_CGROUPS
      then [(KDBUS_ATTACH_CGROUP, kdbus_meta_append_cgroup w)] else [])
  ++ (if CONFIG_AUDITSYSCALL
      then [(KDBUS_ATTACH_AUDIT, kdbus_meta_append_audit w)] else [])
  ++ (if CONFIG_SECURITY
      then [(KDBUS_ATTACH_SECLABEL, kdbus_meta_append_seclabel w)] else []).

(** The chain of [if (which & FLAG && !(meta->attached & FLAG))] blocks:
    a negative result leaves through [exit], any other result marks the
    category attached and goes on; [ret] is what [return ret] would give
    if no further block ran. *)
Fixpoint attach_blocks (which : Z)
    (l : list (Z * (kdbus_meta -> Z * kdbus_meta)))
    (ret : Z) (meta : kdbus_meta) : Z * kdbus_meta :=
  match l with
  | [] => (ret, meta)
  | (flag, produce) :: l' =>
      if negb (Z.land which flag =? 0)
         && (Z.land (attached meta) flag =? 0)
      then
        let '(ret, meta) := produce meta in
        if ret <? 0 then (ret, meta)
        else attach_blocks which l' ret
               (set_attached meta (Z.lor (attached meta) flag))
      else attach_blocks which l' ret meta
  end.

Definition kdbus_meta_append (meta : kdbus_meta) (conn : option kdbus_conn)
    (which : Z) (w : world) : Z * kdbus_meta :=
  let ret := 0 in
  match conn with
  | None => (0, meta)       (* kernel-generated messages *)
  | Some _ =>
      (* all metadata already added *)
      if Z.land which (attached meta) =? which then (0, meta)
      else attach_blocks which (producers w conn) ret meta
  end.

(** ** Reading a snapshot back *)

Record item_view := {
  item_offset : Z;
  item_size : Z;
  item_type : Z
}.

(** [KDBUS_ITEM_FOREACH] of test/kdbus-util.h over the first [size] bytes
    of a block, from [off] on: the items in the order met.  [None] when
    the walk has not ended after [fuel] items. *)
Fixpoint KDBUS_ITEM_FOREACH (fuel : nat) (buf : list byte) (size off : Z)
    : option (list item_view) :=
  if off <? size then
    match fuel with
    | O => None
    | S fuel =>
        let sz := load_u64 buf (off + item_size_field) in
        let ty := load_u64 buf (off + item_type_field) in
        (* KDBUS_ITEM_NEXT *)
        match KDBUS_ITEM_FOREACH fuel buf size
                (wrap64 (off + KDBUS_ALIGN8 sz)) with
        | Some l => Some ({| item_offset := off; item_size := sz;
                             item_type := ty |} :: l)
        | None => None
        end
    end
  else Some [].

Definition meta_items (fuel : nat) (meta : kdbus_meta)
    : option (list item_view) :=
  match data meta with
  | Some d => KDBUS_ITEM_FOREACH fuel d (size meta) 0
  | None => KDBUS_ITEM_FOREACH fuel [] (size meta) 0
  end.

End Metadata.

(** ** Runs of calls *)

(** One call of [kdbus_meta_append]: the connection as it is at that time,
    the mask asked for, and the kernel around it. *)
Record call := {
  call_conn : option kdbus_conn;
  call_which : Z;
  call_world : world
}.

(** A snapshot after a sequence of calls, whatever each of them returned. *)
Definition kdbus_meta_appends {K : kdbus_h} (meta : kdbus_meta)
    (calls : list call) : kdbus_meta :=
  fold_left
    (fun m c =>
       snd (kdbus_meta_append m (call_conn c) (call_which c) (call_world c)))
    calls meta.

(** Whether a call of [kdbus_meta_append_item] that took [meta] to [meta']
    moved an existing buffer into a new block. *)
Definition reallocated (meta meta' : kdbus_meta) : bool :=
  match data meta with
  | Some _ => negb (allocated_size meta' =? allocated_size meta)
  | None => false
  end.

(** Item appends in a row, each with its allocator and size; the result is
    the snapshot and the number of reallocations. *)
Fixpoint append_items (meta : kdbus_meta) (l : list (allocator * Z))
    : kdbus_meta * nat :=
  match l with
  | [] => (meta, O)
  | (a, extra_size) :: l' =>
      let meta' := snd (kdbus_meta_append_item a meta extra_size) in
      let '(m, n) := append_items meta' l' in
      (m, ((if reallocated meta meta' then 1 else 0) + n)%nat)
  end.

(** ** What is assumed of the kernel *)

(** No allocation of more than [ALLOC_LIMIT] bytes succeeds, and the names
    of a connection take less than [NAMES_LIMIT] bytes.  Both are far above
    what a machine can hold; they keep the 64-bit sizes from wrapping. *)
Definition ALLOC_LIMIT : Z := 2 ^ 62.
Definition NAMES_LIMIT : Z := 2 ^ 32.

Definition allocator_sane (a : allocator) : Prop :=
  forall n, (kzalloc_ok a n = true -> n <= ALLOC_LIMIT)
            /\ (kmalloc_ok a n = true -> n <= ALLOC_LIMIT).

Definition world_sane (w : world) : Prop :=
  forall s, allocator_sane (alloc_at w s).

Definition names_bytes (l : list kdbus_name_entry) : Z :=
  fold_right (fun e n => strlen (name e) + 1 + n) 0 l.

Definition conn_sane (conn : option kdbus_conn) : Prop :=
  match conn with
  | Some c => names_bytes (names_list c) < NAMES_LIMIT
  | None => True
  end.

Definition call_sane (c : call) : Prop :=
  world_sane (call_world c) /\ conn_sane (call_conn c).

(** ** The shape of a snapshot *)

Definition block_of (meta : kdbus_meta) : list byte :=
  match data meta with
  | Some d => d
  | None => []
  end.

(** [chain buf stop off l]: the bytes of [buf] from [off] to [stop] are the
    items [l], one after the other, each taking its size rounded up to 8. *)
Inductive chain (buf : list byte) (stop : Z) : Z -> list item_view -> Prop :=
| chain_end : chain buf stop stop []
| chain_item off sz ty l :
    load_u64 buf (off + item_size_field) = sz ->
    load_u64 buf (off + item_type_field) = ty ->
    KDBUS_ITEM_HEADER_SIZE <= sz < 2 ^ 63 ->
    off + KDBUS_ALIGN8 sz <= stop ->
    chain buf stop (off + KDBUS_ALIGN8 sz) l ->
    chain buf stop off
      ({| item_offset := off; item_size := sz; item_type := ty |} :: l).

Definition is_pow2 (lo hi n : Z) : Prop :=
  exists k, lo <= k <= hi /\ n = 2 ^ k.

(** [r] is the smallest power of two that is at least [n]. *)
Definition smallest_pow2_ge (n r : Z) : Prop :=
  is_pow2 0 63 r /\ n <= r /\ r < 2 * n.

(** The sizes of a snapshot are consistent: the logical size is a multiple
    of 8 within the capacity, and the capacity is a power of two. *)
Definition sizes_ok (meta : kdbus_meta) : Prop :=
  0 <= size meta /\ size meta mod 8 = 0
  /\ match data meta with
     | None => size meta = 0
     | Some d =>
         Z.of_nat (length d) = allocated_size meta
         /\ size meta <= allocated_size meta
         /\ is_pow2 8 62 (allocated_size meta)
     end.

(** The snapshot holds the items [l] and its sizes are consistent. *)
Definition blob_ok (meta : kdbus_meta) (l : list item_view) : Prop :=
  0 <= size meta /\ size meta mod 8 = 0
  /\ match data meta with
     | None => size meta = 0
     | Some d =>
         Z.of_nat (length d) = allocated_size meta
         /\ size meta <= allocated_size meta
         /\ is_pow2 8 62 (allocated_size meta)
     end
  /\ chain (block_of meta) (size meta) 0 l.

(** [meta'] differs from [meta] by stores at offsets from [p] on. *)
Definition same_below (p : Z) (meta meta' : kdbus_meta) : Prop :=
  attached meta' = attached meta
  /\ size meta' = size meta
  /\ allocated_size meta' = allocated_size meta
  /\ match data meta, data meta' with
     | Some d, Some d' =>
         length d' = length d
         /\ firstn (Z.to_nat p) d' = firstn (Z.to_nat p) d
     | None, None => True
     | _, _ => False
     end.

(** The walk a reader makes: every item starts at a multiple of 8, the next
    one starts its rounded-up size later, and the last one ends at [stop]. *)
Fixpoint walkable (off : Z) (l : list item_view) (stop : Z) : Prop :=
  match l with
  | [] => off = stop
  | it :: l' =>
      item_offset it = off
      /\ off mod 8 = 0
      /\ item_size it <= KDBUS_ALIGN8 (item_size it)
      /\ KDBUS_ALIGN8 (item_size it) mod 8 = 0
      /\ walkable (off + KDBUS_ALIGN8 (item_size it)) l' stop
  end.

(** ** Sample inputs for the examples *)

Definition sample_allocator : allocator := {|
  kzalloc_ok := fun n => n <=? 2 ^ 22;
  kmalloc_ok := fun n => n <=? 2 ^ 22;
  kmalloc_junk := fun _ => Byte.xaa
|}.

Definition failing_allocator : allocator := {|
  kzalloc_ok := fun _ => false;
  kmalloc_ok := fun _ => false;
  kmalloc_junk := fun _ => Byte.xaa
|}.

(** A process "ab" run as [/b], uid 1000, with ten bytes of arguments that
    can all be read. *)
Definition sample_world : world := {|
  alloc_at := fun _ => sample_allocator;
  get_free_page_ok := fun _ => true;
  ktime_get_ts := 1000;
  ktime_get_real_ts := 2000;
  current_uid := 1000;
  current_gid := 100;
  current_pid := 42;
  current_tgid := 42;
  current_start_time := 5;
  group_leader_comm := [Byte.x61; Byte.x62];
  current_comm := [Byte.x61];
  current_mm := Some {| exe_file := Some [Byte.x2f; Byte.x62];
                        arg_start := 100; arg_end := 110 |};
  user_memory := fun _ n => repeat Byte.x63 (Z.to_nat n);
  cap_inheritable := [0; 0];
  cap_permitted := [4294967295; 4294967295];
  cap_effective := [1; 2];
  cap_bset := [4294967295; 4294967295];
  task_cgroup_path := (0, [Byte.x2f]);
  audit_loginuid := 1000;
  audit_sessionid := 3;
  security_secid_to_secctx := (0, Some [Byte.x75])
|}.

(** The same process when its arguments cannot be read: [copy_from_user]
    copies nothing. *)
Definition unreadable_args_world : world := {|
  alloc_at := alloc_at sample_world;
  get_free_page_ok := get_free_page_ok sample_world;
  ktime_get_ts := ktime_get_ts sample_world;
  ktime_get_real_ts := ktime_get_real_ts sample_world;
  current_uid := current_uid sample_world;
  current_gid := current_gid sample_world;
  current_pid := current_pid sample_world;
  current_tgid := current_tgid sample_world;
  current_start_time := current_start_time sample_world;
  group_leader_comm := group_leader_comm sample_world;
  current_comm := current_comm sample_world;
  current_mm := current_mm sample_world;
  user_memory := fun _ _ => [];
  cap_inheritable := cap_inheritable sample_world;
  cap_permitted := cap_permitted sample_world;
  cap_effective := cap_effective sample_world;
  cap_bset := cap_bset sample_world;
  task_cgroup_path := task_cgroup_path sample_world;
  audit_loginuid := audit_loginuid sample_world;
  audit_sessionid := audit_sessionid sample_world;
  security_secid_to_secctx := security_secid_to_secctx sample_world
|}.

Definition sample_cred : cred := {| uid := 1000; gid := 100; fsuid := 1000 |}.

(** A connection that owns no name, and one that owns "ab" and "c". *)
Definition nameless_conn : kdbus_conn := {|
  conn_cred := sample_cred;
  privileged := false;
  names_list := []
|}.

Definition named_conn : kdbus_conn := {|
  conn_cred := sample_cred;
  privileged := false;
  names_list := [ {| name := [Byte.x61; Byte.x62] |};
                  {| name := [Byte.x63] |} ]
|}.

(** The state between [kdbus_meta_append_item] and the stores that fill the
    item: the items [l] end at [item], and [n] more bytes are reserved. *)
Definition slot (meta : kdbus_meta) (l : list item_view) (item n : Z) : Prop :=
  0 <= item /\ item mod 8 = 0 /\ size meta = item + n
  /\ exists d, data meta = Some d
       /\ Z.of_nat (length d) = allocated_size meta
       /\ size meta <= allocated_size meta
       /\ is_pow2 8 62 (allocated_size meta)
       /\ chain d item 0 l.

(** What a producer that writes one item of type [ty] leaves: either an
    error and the snapshot as it was, or the item after the items [l]. *)
Definition item_result (ty : Z) (meta : kdbus_meta) (l : list item_view)
    (r : Z * kdbus_meta) : Prop :=
  attached (snd r) = attached meta
  /\ ((fst r < 0 /\ snd r = meta)
      \/ (fst r = 0
          /\ exists it, item_type it = ty /\ item_offset it = size meta
               /\ blob_ok (snd r) (l ++ [it]))).

(** What any producer leaves: the attached mask as it was, and after the
    items [l] some more, all of types among [tys]. *)
Definition added (tys : list Z) (meta : kdbus_meta) (l : list item_view)
    (r : Z * kdbus_meta) : Prop :=
  attached (snd r) = attached meta
  /\ exists new, blob_ok (snd r) (l ++ new)
       /\ Forall (fun it => In (item_type it) tys) new.

Section Shapes.

Context {K : kdbus_h}.

Definition attach_flags : list Z :=
  [KDBUS_ATTACH_TIMESTAMP; KDBUS_ATTACH_CREDS; KDBUS_ATTACH_NAMES;
   KDBUS_ATTACH_COMM; KDBUS_ATTACH_EXE; KDBUS_ATTACH_CMDLINE;
   KDBUS_ATTACH_CAPS; KDBUS_ATTACH_CGROUP; KDBUS_ATTACH_AUDIT;
   KDBUS_ATTACH_SECLABEL].

Definition item_types : list Z :=
  [KDBUS_ITEM_TIMESTAMP; KDBUS_ITEM_CREDS; KDBUS_ITEM_NAMES;
   KDBUS_ITEM_TID_COMM; KDBUS_ITEM_PID_COMM; KDBUS_ITEM_EXE;
   KDBUS_ITEM_CMDLINE; KDBUS_ITEM_CAPS; KDBUS_ITEM_CGROUP;
   KDBUS_ITEM_AUDIT; KDBUS_ITEM_SECLABEL].

Definition is_flag_bit (f : Z) : Prop :=
  exists k, 0 <= k < 64 /\ f = 2 ^ k.

(** The types of the items one call can write for a connection: NAMES
    only when the connection owns a name. *)
Definition item_types_of (conn : option kdbus_conn) : list Z :=
  [KDBUS_ITEM_TIMESTAMP; KDBUS_ITEM_CREDS;
   KDBUS_ITEM_TID_COMM; KDBUS_ITEM_PID_COMM; KDBUS_ITEM_EXE;
   KDBUS_ITEM_CMDLINE; KDBUS_ITEM_CAPS; KDBUS_ITEM_CGROUP;
   KDBUS_ITEM_AUDIT; KDBUS_ITEM_SECLABEL]
  ++ match conn with
     | Some c =>
         match names_list c with
         | [] => []
         | _ :: _ => [KDBUS_ITEM_NAMES]
         end
     | None => []
     end.

Definition has_type (ty : Z) (it : item_view) : Prop := item_type it = ty.

Definition is_attached (meta : kdbus_meta) (flag : Z) : Prop :=
  Z.land (attached meta) flag <> 0.

(** A well-formed snapshot in which CREDS is attached only if a CREDS item
    is there. *)
Definition snapshot_ok (meta : kdbus_meta) (l : list item_view) : Prop :=
  blob_ok meta l
  /\ (is_attached meta KDBUS_ATTACH_CREDS ->
      Exists (has_type KDBUS_ITEM_CREDS) l).

(** What the proofs need of one block of [kdbus_meta_append]. *)
Definition block_ok (conn : option kdbus_conn)
    (fp : Z * (kdbus_meta -> Z * kdbus_meta)) : Prop :=
  is_flag_bit (fst fp)
  /\ forall meta l, blob_ok meta l ->
       attached (snd (snd fp meta)) = attached meta
       /\ exists new,
            blob_ok (snd (snd fp meta)) (l ++ new)
            /\ Forall (fun it => In (item_type it) (item_types_of conn)) new
            /\ (fst fp = KDBUS_ATTACH_CREDS ->
                ~ fst (snd fp meta) < 0 ->
                Exists (has_type KDBUS_ITEM_CREDS) new).

End Shapes.

(** A producer never touches the attached mask. *)
Definition keeps_attached (fp : Z * (kdbus_meta -> Z * kdbus_meta)) : Prop :=
  forall meta, attached (snd (snd fp meta)) = attached meta.

(** One step of [append_items] within the limits, its rounded size at most
    [B]. *)
Definition step_ok (B : Z) (ae : allocator * Z) : Prop :=
  allocator_sane (fst ae)
  /\ 0 <= snd ae <= 2 ^ 33
  /\ KDBUS_ALIGN8 (snd ae) <= B.

(** ** Sample endpoints for the examples

    A policy database is one of three tables here: it denies everything,
    allows everything, or knows nothing better than to deny. *)
Inductive sample_db := deny_all | allow_all.

Definition sample_check_talk (db : sample_db) (src dst : kdbus_conn) : Z :=
  match db with
  | deny_all => - EPERM
  | allow_all => 0
  end.

Definition sample_check_name (db : sample_db) (c : cred) (nm : cstring) : Z :=
  match db with
  | deny_all => - EPERM
  | allow_all => 0
  end.

(** A custom endpoint whose own policy denies, on a bus that allows. *)
Definition denying_ep : kdbus_ep sample_db := {|
  has_policy := true;
  policy_db := deny_all;
  bus := {| bus_policy_db := allow_all |}
|}.

(** A custom endpoint whose own policy allows, on a bus that denies. *)
Definition allowing_ep : kdbus_ep sample_db := {|
  has_policy := true;
  policy_db := allow_all;
  bus := {| bus_policy_db := deny_all |}
|}.

(** A default endpoint on a bus that denies. *)
Definition default_ep : kdbus_ep sample_db := {|
  has_policy := false;
  policy_db := deny_all;
  bus := {| bus_policy_db := deny_all |}
|}.

Definition privileged_conn : kdbus_conn := {|
  conn_cred := sample_cred;
  privileged := true;
  names_list := []
|}.

Definition other_conn : kdbus_conn := {|
  conn_cred := {| uid := 2000; gid := 200; fsuid := 2000 |};
  privileged := false;
  names_list := [ {| name := [Byte.x64] |} ]
|}.

(** One call for the examples: every category asked for, by a connection
    that owns two names. *)
Definition sample_call : call := {|
  call_conn := Some named_conn;
  call_which := 1023;
  call_world := sample_world
|}.

(** The sample process on a machine that has no memory left. *)
Definition no_memory_world : world := {|
  alloc_at := fun _ => failing_allocator;
  get_free_page_ok := fun _ => false;
  ktime_get_ts := ktime_get_ts sample_world;
  ktime_get_real_ts := ktime_get_real_ts sample_world;
  current_uid := current_uid sample_world;
  current_gid := current_gid sample_world;
  current_pid := current_pid sample_world;
  current_tgid := current_tgid sample_world;
  current_start_time := current_start_time sample_world;
  group_leader_comm := group_leader_comm sample_world;
  current_comm := current_comm sample_world;
  current_mm := current_mm sample_world;
  user_memory := user_memory sample_world;
  cap_inheritable := cap_inheritable sample_world;
  cap_permitted := cap_permitted sample_world;
  cap_effective := cap_effective sample_world;
  cap_bset := cap_bset sample_world;
  task_cgroup_path := task_cgroup_path sample_world;
  audit_loginuid := audit_loginuid sample_world;
  audit_sessionid := audit_sessionid sample_world;
  security_secid_to_secctx := security_secid_to_secctx sample_world
|}.

(** [a] has every bit of [b]. *)
Definition bits_within (b a : Z) : Prop :=
  forall n, Z.testbit b n = true -> Z.testbit a n = true.

(** Three items of 200 bytes, appended by an allocator that has memory. *)
Definition sample_items : list (allocator * Z) :=
  [(sample_allocator, 200); (sample_allocator, 200); (sample_allocator, 200)].

(** The names of a connection as [kdbus_meta_append_src_names] lays them
    out: one after the other, each with its terminator. *)
Definition names_concat (l : list kdbus_name_entry) : list byte :=
  concat (map (fun e => str_bytes (name e)) l).

(** ** endpoint.c: notifications and creation *)

(** [struct kdbus_kmsg], the fields the notification check reads. *)
Record kdbus_kmsg := {
  msg_src_id : Z;
  notify_type : Z;
  notify_name : cstring
}.

(** [struct kdbus_node], the fields [kdbus_ep_new] sets itself. *)
Record kdbus_node := {
  node_uid : Z;
  node_gid : Z;
  node_mode : Z
}.

(** File mode bits of Linux (uapi/linux/stat.h). *)
Definition S_IRUSR : Z := 256.
Definition S_IWUSR : Z := 128.
Definition S_IRGRP : Z := 32.
Definition S_IWGRP : Z := 16.
Definition S_IROTH : Z := 4.
Definition S_IWOTH : Z := 2.

Section EndpointMore.

(** [policy.c], [node.c], [domain.c] and kdbus.h are not part of the
    excerpt: the database and its SEE check, the constants of kdbus.h, the
    type of a domain user and the empty database are parameters. *)
Variable kdbus_policy_db : Type.
Variable kdbus_policy_check_see_access_unlocked :
  kdbus_policy_db -> cred -> cstring -> Z.
Variable KDBUS_SRC_ID_KERNEL : Z.
Variable KDBUS_ITEM_NAME_ADD : Z.
Variable KDBUS_ITEM_NAME_REMOVE : Z.
Variable KDBUS_ITEM_NAME_CHANGE : Z.
Variable KDBUS_MAKE_ACCESS_GROUP : Z.
Variable KDBUS_MAKE_ACCESS_WORLD : Z.
Variable kdbus_domain_user : Type.
Variable kdbus_policy_db_init : kdbus_policy_db.

Definition kdbus_ep_policy_check_notification
    (ep : kdbus_ep kdbus_policy_db) (conn : kdbus_conn) (kmsg : kdbus_kmsg)
    : Z :=
  let ret := - ENOENT in
  (* This is not a custom endpoint, nothing to do *)
  if negb (has_policy ep) then 0
  (* If the msg is not a notification from the kernel then nothing to do *)
  else if negb (msg_src_id kmsg =? KDBUS_SRC_ID_KERNEL) then 0
  (* On custom endpoints we allow only name changes notification *)
  else if (notify_type kmsg =? KDBUS_ITEM_NAME_ADD)
          || (notify_type kmsg =? KDBUS_ITEM_NAME_REMOVE)
          || (notify_type kmsg =? KDBUS_ITEM_NAME_CHANGE)
  then kdbus_ep_policy_check_see_access _
         kdbus_policy_check_see_access_unlocked ep conn (notify_name kmsg)
  else ret.

(** What the functions [kdbus_ep_new] calls answer in one call:
    [kdbus_verify_uid_prefix], [kzalloc], [kdbus_node_link] and
    [kdbus_domain_get_user] (an errno or the user). *)
Record ep_new_env := {
  verify_uid_prefix : Z;
  ep_kzalloc_ok : bool;
  node_link : Z;
  domain_get_user : Z + kdbus_domain_user
}.

(** A [struct kdbus_ep] as [kdbus_ep_new] fills it. *)
Record kdbus_ep_object := {
  ep_node : kdbus_node;
  ep_policy : kdbus_ep kdbus_policy_db;
  ep_id : Z;
  ep_user : option kdbus_domain_user
}.

Inductive ep_ptr :=
| Ep (e : kdbus_ep_object)
| EP_ERR_PTR (err : Z).

(** The mode [kdbus_ep_new] gives the node for the access flags. *)
Definition ep_node_mode (access : Z) : Z :=
  let mode := Z.lor S_IRUSR S_IWUSR in
  let mode :=
    if negb (Z.land access
               (Z.lor KDBUS_MAKE_ACCESS_GROUP KDBUS_MAKE_ACCESS_WORLD) =? 0)
    then Z.lor mode (Z.lor S_IRGRP S_IWGRP) else mode in
  if negb (Z.land access KDBUS_MAKE_ACCESS_WORLD =? 0)
  then Z.lor mode (Z.lor S_IROTH S_IWOTH) else mode.

(** [kdbus_ep_new]: the result, and [bus->ep_seq_last] afterwards. *)
Definition kdbus_ep_new (env : ep_new_env) (b : kdbus_bus kdbus_policy_db)
    (ep_seq_last : Z) (access uid gid : Z) (is_custom : bool)
    : ep_ptr * Z :=
  (* Validate only custom endpoints names *)
  if is_custom && (verify_uid_prefix env <? 0)
  then (EP_ERR_PTR (verify_uid_prefix env), ep_seq_last)
  else if negb (ep_kzalloc_ok env) then (EP_ERR_PTR (- ENOMEM), ep_seq_last)
  else
    let node := {| node_uid := uid; node_gid := gid;
                   node_mode := ep_node_mode access |} in
    let id := wrap64 (ep_seq_last + 1) in
    let e := {| ep_node := node;
                ep_policy := {| has_policy := is_custom;
                                policy_db := kdbus_policy_db_init;
                                bus := b |};
                ep_id := id;
                ep_user := None |} in
    if node_link env <? 0 then (EP_ERR_PTR (node_link env), id)
    else if is_custom then
      match domain_get_user env with
      | inl err => (EP_ERR_PTR err, id)
      | inr user =>
          (Ep {| ep_node := node; ep_policy := ep_policy e;
                 ep_id := id; ep_user := Some user |}, id)
      end
    else (Ep e, id).

End EndpointMore.

Arguments verify_uid_prefix {kdbus_domain_user} _.
Arguments ep_kzalloc_ok {kdbus_domain_user} _.
Arguments node_link {kdbus_domain_user} _.
Arguments domain_get_user {kdbus_domain_user} _.
Arguments ep_node {kdbus_policy_db kdbus_domain_user} _.
Arguments ep_policy {kdbus_policy_db kdbus_domain_user} _.
Arguments ep_id {kdbus_policy_db kdbus_domain_user} _.
Arguments ep_user {kdbus_policy_db kdbus_domain_user} _.
Arguments Ep {kdbus_policy_db kdbus_domain_user} _.
Arguments EP_ERR_PTR {kdbus_policy_db kdbus_domain_user} _.

(** * Proofs *)

(** ** Arithmetic of the macros *)

Lemma wrap64_small z : 0 <= z < 2 ^ 64 -> wrap64 z = z.
Proof. intros; unfold wrap64; apply Z.mod_small; assumption. Qed.

Lemma land_high_mask x : 0 <= x < 2 ^ 64 -> Z.land x (wrap64 (Z.lnot 7)) = 8 * (x / 8).
Proof.
  intros Hx.
  change (wrap64 (Z.lnot 7)) with (2 ^ 64 - 8).
  assert (E : Z.land x (2 ^ 64 - 8) = Z.land x (Z.lnot 7)).
  { apply Z.bits_inj'; intros n Hn.
    rewrite !Z.land_spec.
    destruct (Z.ltb_spec n 64).
    - f_equal.
      change (2 ^ 64 - 8) with (Z.lnot 7 mod 2 ^ 64).
      rewrite Z.mod_pow2_bits_low by lia. reflexivity.
    - rewrite (Z.bits_above_log2 x n); [reflexivity | lia |].
      destruct (Z.eq_dec x 0) as [->|]; [simpl; lia|].
      apply Z.log2_lt_pow2; [lia|].
      apply Z.lt_le_trans with (2 ^ 64); [lia|]. apply Z.pow_le_mono_r; lia. }
  rewrite E.
  change (Z.lnot 7) with (Z.lnot (Z.ones 3)).
  rewrite <- Z.ldiff_land, Z.ldiff_ones_r by lia.
  rewrite Z.shiftl_mul_pow2, Z.shiftr_div_pow2 by lia.
  change (2 ^ 3) with 8. lia.
Qed.

Lemma KDBUS_ALIGN8_eq l : 0 <= l -> l + 7 < 2 ^ 64 -> KDBUS_ALIGN8 l = 8 * ((l + 7) / 8).
Proof.
  intros. unfold KDBUS_ALIGN8. rewrite wrap64_small by lia. apply land_high_mask; lia.
Qed.

Lemma KDBUS_ALIGN8_mod8 l : KDBUS_ALIGN8 l mod 8 = 0.
Proof.
  unfold KDBUS_ALIGN8. rewrite land_high_mask.
  - rewrite Z.mul_comm. apply Z.mod_mul; lia.
  - apply Z.mod_pos_bound; lia.
Qed.

Lemma KDBUS_ALIGN8_range l : 0 <= KDBUS_ALIGN8 l < 2 ^ 64.
Proof.
  unfold KDBUS_ALIGN8. rewrite land_high_mask by (apply Z.mod_pos_bound; lia).
  pose proof (Z.mod_pos_bound (l + 7) (2 ^ 64) ltac:(lia)) as H. unfold wrap64.
  set (x := (l + 7) mod 2 ^ 64) in *.
  pose proof (Z.mul_div_le x 8 ltac:(lia)). 
  assert (0 <= x / 8) by (apply Z.div_pos; lia). lia.
Qed.

Lemma KDBUS_ALIGN8_bounds l : 0 <= l -> l + 7 < 2 ^ 64 -> l <= KDBUS_ALIGN8 l < l + 8.
Proof.
  intros. rewrite KDBUS_ALIGN8_eq by lia.
  pose proof (Z.div_mod (l + 7) 8 ltac:(lia)).
  pose proof (Z.mod_pos_bound (l + 7) 8 ltac:(lia)). lia.
Qed.

Lemma KDBUS_ALIGN8_aligned l : 0 <= l < 2 ^ 64 -> l mod 8 = 0 -> KDBUS_ALIGN8 l = l.
Proof.
  intros Hl Hm.
  assert (l + 7 < 2 ^ 64).
  { pose proof (Z.div_mod l 8 ltac:(lia)). 
    assert (l / 8 < 2 ^ 61) by (apply Z.div_lt_upper_bound; lia). lia. }
  rewrite KDBUS_ALIGN8_eq by lia.
  pose proof (Z.div_mod l 8 ltac:(lia)).
  replace (l + 7) with (l / 8 * 8 + 7) by lia.
  rewrite Z.div_add_l by lia. change (7 / 8) with 0. lia.
Qed.

Lemma roundup_pow_of_two_eq n : 1 <= n <= 2 ^ 63 -> roundup_pow_of_two n = 2 ^ Z.log2_up n.
Proof.
  intros Hn. unfold roundup_pow_of_two.
  rewrite (wrap64_small (n - 1)) by lia.
  assert (Hk : fls_long (n - 1) = Z.log2_up n).
  { unfold fls_long. destruct (Z.eqb_spec (n - 1) 0) as [E|E].
    - replace n with 1 by lia. reflexivity.
    - rewrite Z.log2_up_eqn by lia. replace (Z.pred n) with (n - 1) by lia. lia. }
  rewrite Hk.
  assert (0 <= Z.log2_up n <= 63).
  { split; [apply Z.log2_up_nonneg|].
    change 63 with (Z.log2_up (2 ^ 63)). apply Z.log2_up_le_mono. lia. }
  rewrite Z.shiftl_mul_pow2 by lia. rewrite Z.mul_1_l.
  apply wrap64_small. split; [apply Z.pow_nonneg; lia|].
  apply Z.pow_lt_mono_r; lia.
Qed.

Lemma roundup_pow_of_two_spec n : 1 <= n <= 2 ^ 63 ->
  exists k, 0 <= k <= 63 /\ roundup_pow_of_two n = 2 ^ k /\ n <= 2 ^ k /\ (2 ^ k < 2 * n).
Proof.
  intros Hn. exists (Z.log2_up n). rewrite roundup_pow_of_two_eq by assumption.
  assert (0 <= Z.log2_up n <= 63).
  { split; [apply Z.log2_up_nonneg|].
    change 63 with (Z.log2_up (2 ^ 63)). apply Z.log2_up_le_mono. lia. }
  repeat split; try lia.
  - destruct (Z.eq_dec n 1) as [->|]; [simpl; lia|].
    apply Z.log2_up_spec; lia.
  - destruct (Z.eq_dec n 1) as [->|]; [simpl; lia|].
    pose proof (Z.log2_up_spec n ltac:(lia)) as [H1 _].
    replace (Z.log2_up n) with (Z.succ (Z.pred (Z.log2_up n))) by lia.
    rewrite Z.pow_succ_r; [lia|].
    assert (0 < Z.log2_up n) by (apply Z.log2_up_pos; lia). lia.
Qed.

Lemma wrap64_range z : 0 <= wrap64 z < 2 ^ 64.
Proof. unfold wrap64. apply Z.mod_pos_bound. lia. Qed.

Lemma wrap32_range z : 0 <= wrap32 z < 2 ^ 32.
Proof. unfold wrap32. apply Z.mod_pos_bound. lia. Qed.

(** ** Memory blocks *)

Lemma mem_write_length buf off bs : length (mem_write buf off bs) = length buf.
Proof.
  unfold mem_write.
  destruct (0 <=? off) eqn:H0; [|reflexivity].
  destruct (off + Z.of_nat (length bs) <=? Z.of_nat (length buf)) eqn:H1; [|reflexivity].
  cbn [andb]. apply Z.leb_le in H0, H1.
  rewrite !length_app, length_firstn, length_skipn. lia.
Qed.

Lemma mem_write_firstn buf off bs p :
  0 <= p <= off ->
  firstn (Z.to_nat p) (mem_write buf off bs) = firstn (Z.to_nat p) buf.
Proof.
  intros Hp. unfold mem_write.
  destruct (0 <=? off) eqn:H0; [|reflexivity].
  destruct (off + Z.of_nat (length bs) <=? Z.of_nat (length buf)) eqn:H1; [|reflexivity].
  cbn [andb]. apply Z.leb_le in H0, H1.
  rewrite firstn_app.
  rewrite length_firstn.
  replace (Z.to_nat p - Nat.min (Z.to_nat off) (length buf))%nat with 0%nat by lia.
  rewrite firstn_O, app_nil_r, firstn_firstn.
  f_equal. lia.
Qed.

Lemma mem_write_skipn buf off bs a :
  off + Z.of_nat (length bs) <= a ->
  skipn (Z.to_nat a) (mem_write buf off bs) = skipn (Z.to_nat a) buf.
Proof.
  intros Ha. unfold mem_write.
  destruct (0 <=? off) eqn:H0; [|reflexivity].
  destruct (off + Z.of_nat (length bs) <=? Z.of_nat (length buf)) eqn:H1; [|reflexivity].
  cbn [andb]. apply Z.leb_le in H0, H1.
  rewrite app_assoc, skipn_app.
  rewrite length_app, length_firstn.
  rewrite (skipn_all2 (firstn _ buf ++ bs)) by (rewrite length_app, length_firstn; lia).
  rewrite skipn_skipn. cbn [app]. f_equal. lia.
Qed.

Lemma mem_read_below buf buf' a n p :
  0 <= a -> 0 <= n -> a + n <= p ->
  firstn (Z.to_nat p) buf' = firstn (Z.to_nat p) buf ->
  mem_read buf' a n = mem_read buf a n.
Proof.
  intros Ha Hn Hp E. unfold mem_read.
  assert (F : forall b : list byte,
             firstn (Z.to_nat n) (skipn (Z.to_nat a) b)
             = firstn (Z.to_nat n) (skipn (Z.to_nat a) (firstn (Z.to_nat p) b))).
  { intros b. rewrite skipn_firstn_comm, firstn_firstn. f_equal. lia. }
  rewrite (F buf'), (F buf), E. reflexivity.
Qed.

Lemma mem_read_write_below buf off bs a n :
  0 <= a -> 0 <= n -> a + n <= off ->
  mem_read (mem_write buf off bs) a n = mem_read buf a n.
Proof.
  intros. apply mem_read_below with (p := off); try lia.
  apply mem_write_firstn. lia.
Qed.

Lemma mem_read_write_above buf off bs a n :
  off + Z.of_nat (length bs) <= a ->
  mem_read (mem_write buf off bs) a n = mem_read buf a n.
Proof.
  intros. unfold mem_read. rewrite mem_write_skipn by assumption. reflexivity.
Qed.

Lemma mem_read_write_same buf off bs :
  0 <= off -> off + Z.of_nat (length bs) <= Z.of_nat (length buf) ->
  mem_read (mem_write buf off bs) off (Z.of_nat (length bs)) = bs.
Proof.
  intros H0 H1. unfold mem_read, mem_write.
  destruct (Z.leb_spec 0 off); [|lia].
  destruct (Z.leb_spec (off + Z.of_nat (length bs)) (Z.of_nat (length buf))); [|lia].
  cbn [andb].
  rewrite skipn_app, length_firstn.
  rewrite (skipn_all2 (firstn _ buf)) by (rewrite length_firstn; lia).
  replace (Z.to_nat off - Nat.min (Z.to_nat off) (length buf))%nat with 0%nat by lia.
  cbn [app skipn]. rewrite Nat2Z.id.
  rewrite firstn_app, firstn_all, Nat.sub_diag, firstn_O, app_nil_r. reflexivity.
Qed.

Lemma load_store_u64 buf off v :
  0 <= off -> off + 8 <= Z.of_nat (length buf) ->
  load_u64 (mem_write buf off (u64_bytes v)) off = wrap64 v.
Proof.
  intros. unfold load_u64.
  change 8 with (Z.of_nat (length (u64_bytes v))) at 1.
  rewrite mem_read_write_same.
  - unfold u64_bytes. rewrite le_combine_split. reflexivity.
  - assumption.
  - unfold u64_bytes. rewrite length_le_split. lia.
Qed.

Lemma load_u64_below buf buf' a p :
  0 <= a -> a + 8 <= p ->
  firstn (Z.to_nat p) buf' = firstn (Z.to_nat p) buf ->
  load_u64 buf' a = load_u64 buf a.
Proof.
  intros. unfold load_u64. f_equal.
  apply mem_read_below with (p := p); try lia. assumption.
Qed.

Lemma mem_read_0 buf n : mem_read buf 0 n = firstn (Z.to_nat n) buf.
Proof. reflexivity. Qed.

Lemma mem_read_length buf off n :
  0 <= off -> 0 <= n -> off + n <= Z.of_nat (length buf) ->
  Z.of_nat (length (mem_read buf off n)) = n.
Proof.
  intros. unfold mem_read. rewrite length_firstn, length_skipn. lia.
Qed.

Lemma memset_length buf off c n : length (memset buf off c n) = length buf.
Proof. apply mem_write_length. Qed.

Lemma mem_read_back buf off bs n :
  n = Z.of_nat (length bs) ->
  0 <= off -> off + n <= Z.of_nat (length buf) ->
  mem_read (mem_write buf off bs) off n = bs.
Proof. intros -> H0 H1. apply mem_read_write_same; assumption. Qed.

(** ** Chains of items *)

Lemma chain_le buf stop off l : chain buf stop off l -> off <= stop.
Proof.
  induction 1 as [|off sz ty l Hs Ht Hsz Hle Hc IH]; [lia|].
  pose proof (KDBUS_ALIGN8_range sz). lia.
Qed.

Lemma chain_prefix buf buf' stop off l :
  chain buf stop off l -> 0 <= off ->
  firstn (Z.to_nat stop) buf' = firstn (Z.to_nat stop) buf ->
  chain buf' stop off l.
Proof.
  intros Hc. induction Hc as [|off sz ty l Hs Ht Hsz Hle Hc IH]; intros H0 E.
  - constructor.
  - unfold KDBUS_ITEM_HEADER_SIZE, item_data_field in Hsz.
    pose proof (KDBUS_ALIGN8_bounds sz ltac:(lia) ltac:(lia)) as Hb.
    unfold item_size_field, item_type_field in *.
    constructor; try assumption; unfold item_size_field, item_type_field.
    + rewrite <- Hs. apply load_u64_below with (p := stop); try lia. assumption.
    + rewrite <- Ht. apply load_u64_below with (p := stop); try lia. assumption.
    + apply IH; [lia | assumption].
Qed.

Lemma chain_snoc buf stop off l sz ty :
  chain buf stop off l ->
  load_u64 buf (stop + item_size_field) = sz ->
  load_u64 buf (stop + item_type_field) = ty ->
  KDBUS_ITEM_HEADER_SIZE <= sz < 2 ^ 63 ->
  chain buf (stop + KDBUS_ALIGN8 sz) off
    (l ++ [{| item_offset := stop; item_size := sz; item_type := ty |}]).
Proof.
  intros Hc Hs Ht Hsz.
  pose proof (KDBUS_ALIGN8_range sz) as Hr.
  induction Hc as [|off sz' ty' l Hs' Ht' Hsz' Hle Hc IH].
  - cbn [app]. constructor; try assumption; [lia | constructor].
  - cbn [app]. constructor; try assumption. lia.
Qed.

Lemma chain_walkable buf stop off l :
  chain buf stop off l -> off mod 8 = 0 -> walkable off l stop.
Proof.
  induction 1 as [|off sz ty l Hs Ht Hsz Hle Hc IH]; intros Hm.
  - reflexivity.
  - unfold KDBUS_ITEM_HEADER_SIZE, item_data_field in Hsz.
    pose proof (KDBUS_ALIGN8_bounds sz ltac:(lia) ltac:(lia)) as Hb.
    pose proof (KDBUS_ALIGN8_mod8 sz) as Ha.
    cbn [walkable item_offset item_size].
    repeat split; try assumption; try lia.
    apply IH. rewrite Z.add_mod, Hm, Ha by lia. reflexivity.
Qed.

Lemma chain_foreach buf stop off l :
  chain buf stop off l -> 0 <= off -> stop < 2 ^ 64 ->
  KDBUS_ITEM_FOREACH (length l) buf stop off = Some l.
Proof.
  induction 1 as [|off sz ty l Hs Ht Hsz Hle Hc IH]; intros H0 Hstop.
  - cbn [KDBUS_ITEM_FOREACH length]. rewrite Z.ltb_irrefl. reflexivity.
  - unfold KDBUS_ITEM_HEADER_SIZE, item_data_field in Hsz.
    pose proof (KDBUS_ALIGN8_bounds sz ltac:(lia) ltac:(lia)) as Hb.
    cbn [KDBUS_ITEM_FOREACH length].
    destruct (Z.ltb_spec off stop); [|lia].
    rewrite Hs, Ht.
    rewrite wrap64_small by lia.
    rewrite IH by lia. reflexivity.
Qed.

Lemma chain_nil_block stop l : chain [] stop 0 l -> l = [].
Proof.
  inversion 1 as [|off sz ty l' Hs Ht Hsz Hle Hc]; [reflexivity|].
  assert (E : load_u64 [] (0 + item_size_field) = 0).
  { unfold load_u64, mem_read. rewrite skipn_nil, firstn_nil. reflexivity. }
  unfold KDBUS_ITEM_HEADER_SIZE, item_data_field in Hsz. lia.
Qed.

(** ** [kdbus_meta_append_item] *)

Lemma zeros_length n : 0 <= n -> Z.of_nat (length (zeros n)) = n.
Proof. intros. unfold zeros. rewrite repeat_length. lia. Qed.

Lemma kmalloc_block_length a n : 0 <= n -> Z.of_nat (length (kmalloc_block a n)) = n.
Proof. intros. unfold kmalloc_block. rewrite length_map, length_seq. lia. Qed.

Lemma pow2_bounds lo hi n : 0 <= lo -> is_pow2 lo hi n -> 2 ^ lo <= n <= 2 ^ hi.
Proof.
  intros Hlo (k & Hk & ->). split; apply Z.pow_le_mono_r; lia.
Qed.

(** Below the limits no size wraps, and the call is one of three cases. *)
Lemma blob_ok_sizes meta l : blob_ok meta l -> sizes_ok meta.
Proof. intros (H0 & H8 & Hd & _). repeat split; assumption. Qed.

Lemma append_item_cases a meta extra_size :
  allocator_sane a -> sizes_ok meta -> 0 <= extra_size <= 2 ^ 33 ->
  let n := KDBUS_ALIGN8 extra_size in
  kdbus_meta_append_item a meta extra_size =
  match data meta with
  | None =>
      let r := roundup_pow_of_two (256 + n) in
      if kzalloc_ok a r
      then (Item 0, set_size (set_block meta (zeros r) r) n)
      else (ERR_PTR (- ENOMEM), meta)
  | Some d =>
      if allocated_size meta <? size meta + n then
        let r := roundup_pow_of_two (size meta + n) in
        if kmalloc_ok a r
        then (Item (size meta),
              set_size
                (set_block meta
                   (memset (mem_write (kmalloc_block a r) 0
                              (mem_read d 0 (size meta)))
                      (allocated_size meta) NUL (r - allocated_size meta)) r)
                (size meta + n))
        else (ERR_PTR (- ENOMEM), meta)
      else (Item (size meta), set_size meta (size meta + n))
  end.
Proof.
  intros Ha (Hs0 & Hs8 & Hd) He n.
  pose proof (KDBUS_ALIGN8_bounds extra_size ltac:(lia) ltac:(lia)) as Hn.
  fold n in Hn.
  unfold kdbus_meta_append_item. fold n.
  destruct (data meta) as [d|] eqn:Ed.
  - destruct Hd as (Hlen & Hle & Hp).
    pose proof (pow2_bounds 8 62 _ ltac:(lia) Hp) as Hb.
    cbv beta iota zeta.
    rewrite !(wrap64_small (size meta + n)) by lia.
    destruct (allocated_size meta <? size meta + n) eqn:Elt.
    + destruct (roundup_pow_of_two_spec (size meta + n) ltac:(lia))
        as (k & Hk & Er & Hr1 & Hr2).
      destruct (kmalloc_ok a (roundup_pow_of_two (size meta + n))) eqn:Eok;
        [|reflexivity].
      rewrite Ed.
      cbn [size set_block allocated_size].
      rewrite !(wrap64_small (size meta + n)) by lia.
      rewrite (wrap64_small
                 (roundup_pow_of_two (size meta + n) - allocated_size meta));
        [reflexivity|].
      apply Z.ltb_lt in Elt.
      destruct (Ha (roundup_pow_of_two (size meta + n))) as [_ H2].
      specialize (H2 Eok). unfold ALLOC_LIMIT in H2. lia.
    + rewrite !(wrap64_small (size meta + n)) by lia. reflexivity.
  - cbv beta iota zeta.
    rewrite !(wrap64_small (256 + n)) by lia.
    destruct (roundup_pow_of_two_spec (256 + n) ltac:(lia))
      as (k & Hk & Er & Hr1 & Hr2).
    destruct (kzalloc_ok a (roundup_pow_of_two (256 + n))) eqn:Eok; [|reflexivity].
    cbv beta iota zeta. cbn [size set_block allocated_size data].
    rewrite Hd, !Z.add_0_l.
    rewrite !(wrap64_small n) by lia.
    destruct (Z.ltb_spec (roundup_pow_of_two (256 + n)) n); [lia|].
    cbn [size set_block allocated_size data].
    rewrite Hd, !Z.add_0_l, !(wrap64_small n) by lia.
    reflexivity.
Qed.

(** The block a reallocation builds: the old bytes up to [size], then
    whatever [kmalloc] returned, then zeros from the old capacity on. *)
Lemma grown_block_prefix a r d sz cap :
  0 <= sz <= cap -> cap <= r -> Z.of_nat (length d) = cap ->
  firstn (Z.to_nat sz)
    (memset (mem_write (kmalloc_block a r) 0 (mem_read d 0 sz)) cap NUL (r - cap))
  = firstn (Z.to_nat sz) d.
Proof.
  intros Hsz Hr Hd. unfold memset.
  rewrite mem_write_firstn by lia.
  pose proof (mem_read_length d 0 sz ltac:(lia) ltac:(lia) ltac:(lia)) as Hl.
  rewrite <- (mem_read_0 (mem_write _ _ _)).
  rewrite <- (mem_read_0 d).
  remember (mem_read d 0 sz) as bs eqn:Ebs.
  rewrite <- Hl.
  apply mem_read_write_same; [lia|].
  rewrite kmalloc_block_length by lia. lia.
Qed.

Lemma grown_block_tail a r d sz cap :
  0 <= sz <= cap -> cap <= r ->
  mem_read
    (memset (mem_write (kmalloc_block a r) 0 (mem_read d 0 sz)) cap NUL (r - cap))
    cap (r - cap)
  = zeros (r - cap).
Proof.
  intros Hsz Hr. unfold memset, zeros.
  set (z := repeat NUL (Z.to_nat (r - cap))).
  assert (Hz : Z.of_nat (length z) = r - cap).
  { unfold z. rewrite repeat_length. lia. }
  rewrite <- Hz.
  apply mem_read_write_same; [lia|].
  rewrite mem_write_length, kmalloc_block_length by lia. lia.
Qed.

Lemma grown_block_length a r d sz cap :
  0 <= r ->
  Z.of_nat (length
    (memset (mem_write (kmalloc_block a r) 0 (mem_read d 0 sz)) cap NUL (r - cap)))
  = r.
Proof.
  intros. rewrite memset_length, mem_write_length, kmalloc_block_length; lia.
Qed.

Lemma append_item_spec a meta extra_size l :
  allocator_sane a -> blob_ok meta l -> 0 <= extra_size <= 2 ^ 33 ->
  match kdbus_meta_append_item a meta extra_size with
  | (ERR_PTR err, meta') => err = - ENOMEM /\ meta' = meta
  | (Item item, meta') =>
      item = size meta /\ attached meta' = attached meta
      /\ slot meta' l item (KDBUS_ALIGN8 extra_size)
  end.
Proof.
  intros Ha Hb He.
  rewrite (append_item_cases a meta extra_size Ha (blob_ok_sizes _ _ Hb) He).
  destruct Hb as (Hs0 & Hs8 & Hd & Hc).
  pose proof (KDBUS_ALIGN8_bounds extra_size ltac:(lia) ltac:(lia)) as Hn.
  set (n := KDBUS_ALIGN8 extra_size) in *.
  unfold block_of in Hc.
  destruct (data meta) as [d|] eqn:Ed.
  - destruct Hd as (Hlen & Hle & Hp).
    pose proof (pow2_bounds 8 62 _ ltac:(lia) Hp) as Hpb.
    destruct (Z.ltb_spec (allocated_size meta) (size meta + n)) as [Hlt|Hge].
    + cbv zeta.
      destruct (roundup_pow_of_two_spec (size meta + n) ltac:(lia))
        as (k & Hk & Er & Hr1 & Hr2).
      destruct (kmalloc_ok a (roundup_pow_of_two (size meta + n))) eqn:Eok;
        [|split; reflexivity].
      destruct (Ha (roundup_pow_of_two (size meta + n))) as [_ H2].
      specialize (H2 Eok). unfold ALLOC_LIMIT in H2.
      set (r := roundup_pow_of_two (size meta + n)) in *.
      split; [reflexivity|]. split; [reflexivity|].
      unfold slot. cbn [size set_size set_block data allocated_size].
      repeat split; try lia.
      eexists. split; [reflexivity|].
      split; [apply grown_block_length; lia|].
      split; [lia|].
      split.
      * exists k. split; [|assumption].
        split; [|destruct (Z.le_gt_cases k 62) as [|Hk62]; [assumption|]].
        -- destruct (Z.le_gt_cases 8 k) as [|Hk8]; [assumption|].
           assert (2 ^ k <= 2 ^ 7) by (apply Z.pow_le_mono_r; lia). lia.
        -- assert (2 ^ 63 <= 2 ^ k) by (apply Z.pow_le_mono_r; lia). lia.
      * apply chain_prefix with (buf := d); [assumption | lia |].
        apply grown_block_prefix; lia.
    + split; [reflexivity|]. split; [reflexivity|].
      unfold slot. cbn [size set_size data allocated_size]. rewrite Ed.
      repeat split; try lia.
      exists d. repeat split; try assumption; lia.
  - cbv zeta.
    destruct (roundup_pow_of_two_spec (256 + n) ltac:(lia))
      as (k & Hk & Er & Hr1 & Hr2).
    destruct (kzalloc_ok a (roundup_pow_of_two (256 + n))) eqn:Eok;
      [|split; reflexivity].
    destruct (Ha (roundup_pow_of_two (256 + n))) as [H1 _].
    specialize (H1 Eok). unfold ALLOC_LIMIT in H1.
    set (r := roundup_pow_of_two (256 + n)) in *.
    split; [lia|]. split; [reflexivity|].
    unfold slot. cbn [size set_size set_block data allocated_size].
    repeat split; try lia.
    eexists. split; [reflexivity|].
    split; [apply zeros_length; lia|].
    split; [lia|].
    split.
    + exists k. split; [|assumption].
      split; [|destruct (Z.le_gt_cases k 62) as [|Hk62]; [assumption|]].
      * destruct (Z.le_gt_cases 8 k) as [|Hk8]; [assumption|].
        assert (2 ^ k <= 2 ^ 7) by (apply Z.pow_le_mono_r; lia). lia.
      * assert (2 ^ 63 <= 2 ^ k) by (apply Z.pow_le_mono_r; lia). lia.
    + apply chain_nil_block in Hc. subst l. rewrite Hd in *.
      constructor.
Qed.

(** ** Stores into a reserved item *)

Lemma same_below_refl p m : same_below p m m.
Proof.
  unfold same_below. repeat split. destruct (data m); auto.
Qed.

Lemma same_below_trans p m1 m2 m3 :
  same_below p m1 m2 -> same_below p m2 m3 -> same_below p m1 m3.
Proof.
  unfold same_below. intros (A1 & S1 & C1 & D1) (A2 & S2 & C2 & D2).
  repeat split; try congruence.
  destruct (data m1), (data m2), (data m3); try contradiction; auto.
  destruct D1, D2. split; congruence.
Qed.

Lemma same_below_weaken p q m m' :
  0 <= q <= p -> same_below p m m' -> same_below q m m'.
Proof.
  unfold same_below. intros Hq (A & S & C & D).
  repeat split; try assumption.
  destruct (data m), (data m'); try contradiction; auto.
  destruct D as [L F]. split; [assumption|].
  replace (Z.to_nat q) with (Nat.min (Z.to_nat q) (Z.to_nat p)) by lia.
  rewrite <- !firstn_firstn, F. reflexivity.
Qed.

Lemma meta_write_same_below p m off bs :
  0 <= p <= off -> same_below p m (meta_write m off bs).
Proof.
  intros Hp. unfold same_below, meta_write.
  destruct (data m) as [d|] eqn:Ed; cbn [attached size allocated_size data];
    rewrite ?Ed; (split; [reflexivity|]); (split; [reflexivity|]);
    (split; [reflexivity|]).
  - split; [apply mem_write_length | apply mem_write_firstn; assumption].
  - exact I.
Qed.

Lemma set_src_names_same_below p m q len :
  same_below p m (set_src_names m q len).
Proof.
  unfold same_below, set_src_names. cbn [attached size allocated_size data].
  repeat split. destruct (data m); auto.
Qed.

Lemma copy_names_same_below l : forall m item pos,
  0 <= item -> 0 <= pos ->
  same_below (item + item_data_field) m (fst (copy_names m item l pos)).
Proof.
  induction l as [|e l IH]; intros m item pos Hi Hp; cbn [copy_names fst].
  - apply same_below_refl.
  - apply same_below_trans
      with (m2 := item_set_data m item pos (str_bytes (name e))).
    + unfold item_set_data. apply (meta_write_same_below _ m).
      unfold item_data_field. lia.
    + apply IH; [assumption|]. apply wrap64_range.
Qed.

(** The two header stores, then anything above the header, make the slot
    an item. *)
Lemma item_filled m1 l item n ty sz m2 :
  slot m1 l item n ->
  same_below (item + item_data_field)
    (item_set_size (item_set_type m1 item ty) item sz) m2 ->
  KDBUS_ITEM_HEADER_SIZE <= wrap64 sz < 2 ^ 63 ->
  KDBUS_ALIGN8 (wrap64 sz) = n ->
  blob_ok m2 (l ++ [{| item_offset := item; item_size := wrap64 sz;
                       item_type := wrap64 ty |}]).
Proof.
  intros (Hi0 & Hi8 & Hsize & d1 & Ed1 & Hlen & Hle & Hp & Hc) Hsb Hsz Hn.
  unfold KDBUS_ITEM_HEADER_SIZE, item_data_field in *.
  pose proof (KDBUS_ALIGN8_bounds (wrap64 sz) ltac:(lia) ltac:(lia)) as Hb.
  pose proof (KDBUS_ALIGN8_mod8 (wrap64 sz)) as Hm.
  rewrite Hn in Hb, Hm.
  unfold item_set_size, item_set_type, meta_write in Hsb.
  rewrite Ed1 in Hsb. cbn [data attached size allocated_size] in Hsb.
  unfold item_size_field, item_type_field in Hsb.
  destruct Hsb as (HA & HS & HC & HD).
  cbn [data attached size allocated_size] in HA, HS, HC, HD.
  destruct (data m2) as [d2|] eqn:Ed2; [|contradiction].
  destruct HD as [HL HF].
  rewrite !mem_write_length in HL.
  set (dt := mem_write d1 (item + 8) (u64_bytes ty)) in *.
  set (dh := mem_write dt (item + 0) (u64_bytes sz)) in *.
  assert (Hdt : length dt = length d1) by apply mem_write_length.
  assert (Lsz : load_u64 d2 (item + 0) = wrap64 sz).
  { rewrite (load_u64_below dh d2 (item + 0) (item + 16)) by (lia || assumption).
    apply load_store_u64; lia. }
  assert (Lty : load_u64 d2 (item + 8) = wrap64 ty).
  { rewrite (load_u64_below dh d2 (item + 8) (item + 16)) by (lia || assumption).
    unfold load_u64, dh.
    rewrite mem_read_write_above
      by (unfold u64_bytes; rewrite length_le_split; lia).
    apply load_store_u64; lia. }
  assert (Fi : firstn (Z.to_nat item) d2 = firstn (Z.to_nat item) d1).
  { replace (Z.to_nat item)
      with (Nat.min (Z.to_nat item) (Z.to_nat (item + 16))) by lia.
    rewrite <- !firstn_firstn, HF.
    rewrite !firstn_firstn.
    replace (Nat.min (Z.to_nat item) (Z.to_nat (item + 16)))
      with (Z.to_nat item) by lia.
    unfold dh, dt. rewrite !mem_write_firstn by lia. reflexivity. }
  unfold blob_ok. rewrite HS. cbn [size].
  unfold block_of. rewrite Ed2.
  split; [lia|]. split.
  { rewrite Hsize, Z.add_mod, Hi8, Hm by lia. reflexivity. }
  split.
  { rewrite HC. cbn [allocated_size]. repeat split; try assumption; lia. }
  rewrite Hsize, <- Hn.
  apply chain_snoc; try assumption.
  apply chain_prefix with (buf := d1); [assumption | lia | assumption].
Qed.

(** ** The producers *)

Lemma KDBUS_ITEM_SIZE_eq len :
  0 <= len <= 2 ^ 32 ->
  KDBUS_ITEM_SIZE len = KDBUS_ALIGN8 (len + 16)
  /\ len + 16 <= KDBUS_ITEM_SIZE len < len + 24
  /\ KDBUS_ALIGN8 (KDBUS_ITEM_SIZE len) = KDBUS_ITEM_SIZE len.
Proof.
  intros H. unfold KDBUS_ITEM_SIZE, KDBUS_ITEM_HEADER_SIZE, item_data_field.
  rewrite wrap64_small by lia.
  pose proof (KDBUS_ALIGN8_bounds (len + 16) ltac:(lia) ltac:(lia)).
  repeat split; try lia.
  apply KDBUS_ALIGN8_aligned; [lia | apply KDBUS_ALIGN8_mod8].
Qed.

Lemma attached_meta_write m off bs : attached (meta_write m off bs) = attached m.
Proof. unfold meta_write. destruct (data m); reflexivity. Qed.

Lemma item_result_intro meta l m1 n ty sz m2 :
  slot m1 l (size meta) n -> attached m1 = attached meta ->
  same_below (size meta + item_data_field)
    (item_set_size (item_set_type m1 (size meta) ty) (size meta) sz) m2 ->
  KDBUS_ITEM_HEADER_SIZE <= wrap64 sz < 2 ^ 63 ->
  KDBUS_ALIGN8 (wrap64 sz) = n ->
  0 <= ty < 2 ^ 64 ->
  item_result ty meta l (0, m2).
Proof.
  intros Hslot Hatt Hsb Hsz Hn Hty.
  pose proof (item_filled m1 l (size meta) n ty sz m2 Hslot Hsb Hsz Hn) as Hf.
  rewrite (wrap64_small ty) in Hf by assumption.
  unfold item_result. cbn [fst snd]. split.
  - destruct Hsb as (HA & _). rewrite HA.
    unfold item_set_size, item_set_type. rewrite !attached_meta_write.
    assumption.
  - right. split; [reflexivity|].
    eexists. split; [|split]; [| |apply Hf]; reflexivity.
Qed.

Lemma append_data_ok a meta ty buf len l :
  allocator_sane a -> blob_ok meta l ->
  0 <= len <= 2 ^ 32 -> 0 <= ty < 2 ^ 64 ->
  let r := kdbus_meta_append_data a meta ty buf len in
  (len = 0 /\ r = (0, meta)) \/ (len <> 0 /\ item_result ty meta l r).
Proof.
  intros Ha Hb Hlen Hty r. subst r. unfold kdbus_meta_append_data.
  destruct (Z.eqb_spec len 0) as [E|E]; [left; auto|right].
  split; [assumption|].
  destruct (KDBUS_ITEM_SIZE_eq len Hlen) as (Es & Hs & Hal).
  pose proof (append_item_spec a meta (KDBUS_ITEM_SIZE len) l Ha Hb ltac:(lia)) as Hi.
  destruct (kdbus_meta_append_item a meta (KDBUS_ITEM_SIZE len)) as [[item|err] m1].
  - destruct Hi as (-> & Hatt & Hslot).
    cbv zeta.
    assert (Ew : wrap64 (wrap64 (KDBUS_PART_HEADER_SIZE + len)) = 16 + len).
    { unfold KDBUS_PART_HEADER_SIZE, item_data_field.
      rewrite !wrap64_small; rewrite ?wrap64_small; lia. }
    eapply item_result_intro; try eassumption.
    + unfold item_set_data. apply meta_write_same_below.
      destruct Hslot as (H0 & _). unfold item_data_field. lia.
    + rewrite Ew. unfold KDBUS_ITEM_HEADER_SIZE, item_data_field. lia.
    + rewrite Ew, Hal, Es. f_equal. lia.
  - destruct Hi as (-> & ->). unfold item_result. cbn [fst snd].
    split; [reflexivity|]. left. unfold ENOMEM. split; [lia|reflexivity].
Qed.

Lemma append_str_ok a meta ty str l :
  allocator_sane a -> blob_ok meta l ->
  strlen str < 2 ^ 32 -> 0 <= ty < 2 ^ 64 ->
  item_result ty meta l (kdbus_meta_append_str a meta ty str).
Proof.
  intros Ha Hb Hlen Hty. unfold kdbus_meta_append_str.
  assert (H0 : 0 <= strlen str) by (unfold strlen; lia).
  rewrite (wrap64_small (strlen str + 1)) by lia.
  destruct (append_data_ok a meta ty (str_bytes str) (strlen str + 1) l
              Ha Hb ltac:(lia) Hty) as [[E _]|[_ H]]; [lia|exact H].
Qed.

Lemma append_timestamp_ok {K : kdbus_h} w meta l :
  world_sane w -> blob_ok meta l -> 0 <= KDBUS_ITEM_TIMESTAMP < 2 ^ 64 ->
  item_result KDBUS_ITEM_TIMESTAMP meta l (kdbus_meta_append_timestamp w meta).
Proof.
  intros Hw Hb Hty. unfold kdbus_meta_append_timestamp.
  change (KDBUS_ITEM_SIZE sizeof_kdbus_timestamp) with 32.
  pose proof (append_item_spec (alloc_at w at_timestamp) meta 32 l
                (Hw at_timestamp) Hb ltac:(lia)) as Hi.
  destruct (kdbus_meta_append_item (alloc_at w at_timestamp) meta 32)
    as [[item|err] m1].
  - destruct Hi as (-> & Hatt & Hslot). cbv zeta.
    assert (H0 : 0 <= size meta) by (destruct Hslot as (H0 & _); exact H0).
    eapply item_result_intro; try eassumption.
    + eapply same_below_trans; unfold item_set_data;
        apply meta_write_same_below; unfold item_data_field; lia.
    + change (wrap64 32) with 32.
      unfold KDBUS_ITEM_HEADER_SIZE, item_data_field. lia.
    + reflexivity.
  - destruct Hi as (-> & ->). unfold item_result. cbn [fst snd].
    split; [reflexivity|]. left. unfold ENOMEM. split; [lia|reflexivity].
Qed.

Lemma append_cred_ok {K : kdbus_h} w meta l :
  world_sane w -> blob_ok meta l -> 0 <= KDBUS_ITEM_CREDS < 2 ^ 64 ->
  item_result KDBUS_ITEM_CREDS meta l (kdbus_meta_append_cred w meta).
Proof.
  intros Hw Hb Hty. unfold kdbus_meta_append_cred.
  change (KDBUS_ITEM_SIZE sizeof_kdbus_creds) with 56.
  pose proof (append_item_spec (alloc_at w at_cred) meta 56 l
                (Hw at_cred) Hb ltac:(lia)) as Hi.
  cbv zeta.
  destruct (kdbus_meta_append_item (alloc_at w at_cred) meta 56)
    as [[item|err] m1].
  - destruct Hi as (-> & Hatt & Hslot).
    assert (H0 : 0 <= size meta) by (destruct Hslot as (H0 & _); exact H0).
    eapply item_result_intro; try eassumption.
    + unfold item_set_data.
      apply meta_write_same_below; unfold item_data_field; lia.
    + change (wrap64 56) with 56.
      unfold KDBUS_ITEM_HEADER_SIZE, item_data_field. lia.
    + reflexivity.
  - destruct Hi as (-> & ->). unfold item_result. cbn [fst snd].
    split; [reflexivity|]. left. unfold ENOMEM. split; [lia|reflexivity].
Qed.

Lemma added_unchanged tys meta l ret :
  blob_ok meta l -> added tys meta l (ret, meta).
Proof.
  intros Hb. split; [reflexivity|]. exists []. rewrite app_nil_r.
  split; [assumption | constructor].
Qed.

Lemma item_result_added ty tys meta l r :
  blob_ok meta l -> In ty tys -> item_result ty meta l r -> added tys meta l r.
Proof.
  intros Hb Hin (Hatt & [[_ E]|[_ (it & Hty & _ & Hok)]]).
  - destruct r as [ret m]. cbn [snd] in *. subst m.
    apply added_unchanged. assumption.
  - split; [assumption|]. exists [it]. split; [assumption|].
    constructor; [rewrite Hty; assumption | constructor].
Qed.

Lemma added_incl tys tys' meta l r :
  incl tys tys' -> added tys meta l r -> added tys' meta l r.
Proof.
  intros Hi (Hatt & new & Hok & Hf). split; [assumption|].
  exists new. split; [assumption|].
  eapply Forall_impl; [|exact Hf]. intros it. apply Hi.
Qed.

Lemma append_data_added a meta ty buf len l tys :
  allocator_sane a -> blob_ok meta l ->
  0 <= len <= 2 ^ 32 -> 0 <= ty < 2 ^ 64 -> In ty tys ->
  added tys meta l (kdbus_meta_append_data a meta ty buf len).
Proof.
  intros Ha Hb Hlen Hty Hin.
  destruct (append_data_ok a meta ty buf len l Ha Hb Hlen Hty) as [[_ E]|[_ H]].
  - rewrite E. apply added_unchanged. assumption.
  - eapply item_result_added; eassumption.
Qed.

Lemma names_bytes_nonneg l : 0 <= names_bytes l.
Proof.
  induction l as [|e l IH]; [cbn; lia|].
  change (names_bytes (e :: l)) with (strlen (name e) + 1 + names_bytes l).
  unfold strlen. lia.
Qed.

Lemma names_strsize_acc l : forall acc,
  0 <= acc -> acc + names_bytes l < 2 ^ 64 ->
  fold_left (fun strsize e => wrap64 (strsize + (strlen (name e) + 1))) l acc
  = acc + names_bytes l.
Proof.
  induction l as [|e l IH]; intros acc H0 Hlt.
  - cbn. lia.
  - change (names_bytes (e :: l)) with (strlen (name e) + 1 + names_bytes l) in *.
    cbn [fold_left].
    pose proof (names_bytes_nonneg l).
    assert (0 <= strlen (name e)) by (unfold strlen; lia).
    rewrite wrap64_small by lia.
    rewrite IH by lia. lia.
Qed.

Lemma names_strsize_eq l :
  names_bytes l < 2 ^ 64 -> names_strsize l = names_bytes l.
Proof.
  intros. unfold names_strsize. rewrite names_strsize_acc; lia.
Qed.

Lemma append_src_names_ok {K : kdbus_h} w meta conn l :
  world_sane w -> conn_sane conn -> blob_ok meta l ->
  0 <= KDBUS_ITEM_NAMES < 2 ^ 64 ->
  let r := kdbus_meta_append_src_names w meta conn in
  match conn with
  | Some c =>
      match names_list c with
      | [] => r = (0, meta)
      | _ :: _ => item_result KDBUS_ITEM_NAMES meta l r
      end
  | None => r = (0, meta)
  end.
Proof.
  intros Hw Hc Hb Hty r. subst r. unfold kdbus_meta_append_src_names.
  destruct conn as [c|]; [|reflexivity].
  cbn [conn_sane] in Hc. unfold NAMES_LIMIT in Hc.
  rewrite names_strsize_eq by lia.
  destruct (names_list c) as [|e names] eqn:En; [reflexivity|].
  set (n := names_bytes (e :: names)) in *.
  assert (Hn : 1 <= n).
  { unfold n.
    change (names_bytes (e :: names))
      with (strlen (name e) + 1 + names_bytes names).
    pose proof (names_bytes_nonneg names). unfold strlen. lia. }
  destruct (Z.eqb_spec n 0) as [E|_]; [lia|].
  destruct (KDBUS_ITEM_SIZE_eq n ltac:(lia)) as (Es & Hs & Hal).
  pose proof (append_item_spec (alloc_at w at_src_names) meta
                (KDBUS_ITEM_SIZE n) l (Hw at_src_names) Hb ltac:(lia)) as Hi.
  destruct (kdbus_meta_append_item (alloc_at w at_src_names) meta
              (KDBUS_ITEM_SIZE n)) as [[item|err] m1].
  - destruct Hi as (-> & Hatt & Hslot). cbv zeta.
    assert (H0 : 0 <= size meta) by (destruct Hslot as (H0 & _); exact H0).
    set (hdr := item_set_size (item_set_type m1 (size meta) KDBUS_ITEM_NAMES)
                  (size meta) (wrap64 (KDBUS_PART_HEADER_SIZE + n))).
    pose proof (copy_names_same_below (e :: names) hdr (size meta) 0 H0
                  ltac:(lia)) as Hcp.
    destruct (copy_names hdr (size meta) (e :: names) 0) as [m2 pos].
    cbn [fst] in Hcp.
    assert (Ew : wrap64 (wrap64 (KDBUS_PART_HEADER_SIZE + n)) = 16 + n).
    { unfold KDBUS_PART_HEADER_SIZE, item_data_field.
      rewrite !wrap64_small; rewrite ?wrap64_small; lia. }
    eapply item_result_intro; try eassumption.
    + rewrite Ew. unfold KDBUS_ITEM_HEADER_SIZE, item_data_field. lia.
    + rewrite Ew, Hal, Es. f_equal. lia.
  - destruct Hi as (-> & ->). unfold item_result. cbn [fst snd].
    split; [reflexivity|]. left. unfold ENOMEM. split; [lia|reflexivity].
Qed.

(** ** What the header guarantees *)

Lemma is_flag_spec f : is_flag f = true -> exists k, 0 <= k < 64 /\ f = 2 ^ k.
Proof.
  unfold is_flag. intros H. apply existsb_exists in H as (k & Hin & E).
  apply in_seq in Hin. apply Z.eqb_eq in E.
  exists (Z.of_nat k). split; [lia | assumption].
Qed.

Lemma distinct_NoDup l : distinct l = true -> NoDup l.
Proof.
  induction l as [|x l IH]; intros H; [constructor|].
  cbn [distinct] in H. apply andb_prop in H as [Hx Hl].
  constructor; [|apply IH; assumption].
  intros Hin. apply negb_true_iff in Hx.
  assert (existsb (Z.eqb x) l = true).
  { apply existsb_exists. exists x. split; [assumption | apply Z.eqb_refl]. }
  congruence.
Qed.

Section Header.

Context {K : kdbus_h}.

Lemma attach_flags_bits : Forall is_flag_bit attach_flags.
Proof.
  pose proof attach_flags_ok as H. cbv zeta in H.
  apply andb_prop in H as [H _].
  apply Forall_forall. intros f Hin.
  apply is_flag_spec.
  apply (proj1 (forallb_forall _ _) H). exact Hin.
Qed.

Lemma attach_flags_NoDup : NoDup attach_flags.
Proof.
  pose proof attach_flags_ok as H. cbv zeta in H.
  apply andb_prop in H as [_ H]. apply distinct_NoDup. exact H.
Qed.

Lemma item_types_range : Forall (fun t => 0 <= t < 2 ^ 64) item_types.
Proof.
  pose proof item_types_ok as H. cbv zeta in H.
  apply andb_prop in H as [H _].
  apply Forall_forall. intros t Hin.
  pose proof (proj1 (forallb_forall _ _) H t Hin) as Ht.
  apply andb_prop in Ht as [H1 H2].
  apply Z.leb_le in H1. apply Z.ltb_lt in H2. lia.
Qed.

Lemma item_types_NoDup : NoDup item_types.
Proof.
  pose proof item_types_ok as H. cbv zeta in H.
  apply andb_prop in H as [_ H]. apply distinct_NoDup. exact H.
Qed.

Lemma item_type_in_range t : In t item_types -> 0 <= t < 2 ^ 64.
Proof. apply (proj1 (Forall_forall _ _) item_types_range). Qed.

Lemma attach_flag_bit f : In f attach_flags -> is_flag_bit f.
Proof. apply (proj1 (Forall_forall _ _) attach_flags_bits). Qed.


(** No NAMES item can come from a connection without names. *)
Lemma names_type_not_written conn :
  match conn with Some c => names_list c = [] | None => True end ->
  ~ In KDBUS_ITEM_NAMES (item_types_of conn).
Proof.
  intros Hc Hin. unfold item_types_of in Hin.
  apply in_app_or in Hin as [Hin|Hin].
  - pose proof item_types_NoDup as Hn. unfold item_types in Hn.
    assert (NoDup (KDBUS_ITEM_NAMES ::
              [KDBUS_ITEM_TIMESTAMP; KDBUS_ITEM_CREDS;
               KDBUS_ITEM_TID_COMM; KDBUS_ITEM_PID_COMM; KDBUS_ITEM_EXE;
               KDBUS_ITEM_CMDLINE; KDBUS_ITEM_CAPS; KDBUS_ITEM_CGROUP;
               KDBUS_ITEM_AUDIT; KDBUS_ITEM_SECLABEL])) as Hn'.
    { eapply Permutation.Permutation_NoDup; [|exact Hn].
      apply Permutation.Permutation_sym.
      apply (Permutation.Permutation_middle
               [KDBUS_ITEM_TIMESTAMP; KDBUS_ITEM_CREDS]). }
    inversion Hn' as [|x xs Hnot _]. contradiction.
  - destruct conn as [c|]; [|contradiction].
    rewrite Hc in Hin. contradiction.
Qed.

End Header.

(** ** Bits of the attached mask *)

Lemma land_lor_flag a f : f <> 0 -> Z.land (Z.lor a f) f <> 0.
Proof.
  intros Hf H. rewrite Z.land_lor_distr_l, Z.land_diag in H.
  apply Z.lor_eq_0_iff in H. tauto.
Qed.

Lemma land_lor_keeps a f g : Z.land a g <> 0 -> Z.land (Z.lor a f) g <> 0.
Proof.
  intros Ha H. rewrite Z.land_lor_distr_l in H.
  apply Z.lor_eq_0_iff in H. tauto.
Qed.

Lemma flag_bits_disjoint f g :
  is_flag_bit f -> is_flag_bit g -> f <> g -> Z.land f g = 0.
Proof.
  intros (i & Hi & ->) (j & Hj & ->) Hne.
  apply Z.bits_inj'. intros n Hn.
  rewrite Z.land_spec, Z.bits_0, !Z.pow2_bits_eqb by lia.
  destruct (Z.eqb_spec i n), (Z.eqb_spec j n); try reflexivity.
  subst. contradiction.
Qed.

Lemma land_lor_other a f g :
  Z.land f g = 0 -> Z.land (Z.lor a f) g = Z.land a g.
Proof.
  intros H. rewrite Z.land_lor_distr_l, H, Z.lor_0_r. reflexivity.
Qed.

(** ** Every block of [kdbus_meta_append] *)

Section Blocks.

Context {K : kdbus_h}.

Ltac type_in :=
  unfold item_types_of; apply in_or_app; left; cbn; tauto.

Ltac type_range :=
  apply item_type_in_range; unfold item_types; cbn; tauto.

Lemma get_task_comm_length comm : strlen (get_task_comm comm) < 2 ^ 32.
Proof.
  unfold strlen, get_task_comm, TASK_COMM_LEN.
  rewrite length_firstn. lia.
Qed.

Lemma append_comm_added w conn meta l :
  world_sane w -> blob_ok meta l ->
  added (item_types_of conn) meta l (kdbus_meta_append_comm w meta).
Proof.
  intros Hw Hb. unfold kdbus_meta_append_comm. cbv zeta.
  pose proof (append_str_ok (alloc_at w at_tid_comm) meta KDBUS_ITEM_TID_COMM
                (get_task_comm (group_leader_comm w)) l (Hw at_tid_comm) Hb
                (get_task_comm_length _) ltac:(type_range)) as H1.
  destruct (kdbus_meta_append_str (alloc_at w at_tid_comm) meta
              KDBUS_ITEM_TID_COMM (get_task_comm (group_leader_comm w)))
    as [ret m1].
  destruct H1 as (Hatt & [[Hneg E]|[E (it & Hty & _ & Hok)]]);
    cbn [fst snd] in *.
  - subst m1. destruct (Z.ltb_spec ret 0); [|lia].
    apply added_unchanged. assumption.
  - subst ret. change (0 <? 0) with false. cbv iota.
    pose proof (append_str_ok (alloc_at w at_pid_comm) m1 KDBUS_ITEM_PID_COMM
                  (get_task_comm (current_comm w)) (l ++ [it])
                  (Hw at_pid_comm) Hok
                  (get_task_comm_length _) ltac:(type_range)) as H2.
    assert (A2 : added (item_types_of conn) m1 (l ++ [it])
                   (kdbus_meta_append_str (alloc_at w at_pid_comm) m1
                      KDBUS_ITEM_PID_COMM (get_task_comm (current_comm w)))).
    { eapply item_result_added; [exact Hok | | exact H2]. type_in. }
    destruct A2 as (Hatt2 & new & Hok2 & Hf).
    split; [rewrite Hatt2; exact Hatt|].
    exists (it :: new). rewrite <- app_assoc in Hok2. split; [exact Hok2|].
    constructor; [|assumption]. rewrite Hty. type_in.
Qed.

Lemma append_exe_added w conn meta l :
  world_sane w -> blob_ok meta l ->
  added (item_types_of conn) meta l (kdbus_meta_append_exe w meta).
Proof.
  intros Hw Hb. unfold kdbus_meta_append_exe.
  destruct (current_mm w) as [mm|]; [|apply added_unchanged; assumption].
  destruct (exe_file mm) as [path|]; [|apply added_unchanged; assumption].
  destruct (get_free_page_ok w at_exe); cbn [negb];
    [|apply added_unchanged; assumption].
  unfold d_path.
  assert (0 <= strlen path) by (unfold strlen; lia).
  destruct (Z.leb_spec (strlen path + 1) PAGE_SIZE);
    [|apply added_unchanged; assumption].
  unfold PAGE_SIZE in *.
  replace (wrap64 (4096 - (4096 - (strlen path + 1)))) with (strlen path + 1)
    by (rewrite wrap64_small; lia).
  apply append_data_added; try assumption; try lia;
    [apply Hw | type_range | type_in].
Qed.

Lemma append_cmdline_added w conn meta l :
  world_sane w -> blob_ok meta l ->
  added (item_types_of conn) meta l (kdbus_meta_append_cmdline w meta).
Proof.
  intros Hw Hb. unfold kdbus_meta_append_cmdline.
  destruct (get_free_page_ok w at_cmdline); cbn [negb];
    [|apply added_unchanged; assumption].
  destruct (current_mm w) as [mm|]; [|apply added_unchanged; assumption].
  destruct (arg_end mm =? 0); cbn [negb];
    [apply added_unchanged; assumption|].
  cbv zeta.
  set (len := if PAGE_SIZE <? wrap64 (arg_end mm - arg_start mm)
              then PAGE_SIZE else wrap64 (arg_end mm - arg_start mm)).
  assert (Hlen : 0 <= len <= 4096).
  { unfold len, PAGE_SIZE.
    pose proof (wrap64_range (arg_end mm - arg_start mm)).
    destruct (Z.ltb_spec 4096 (wrap64 (arg_end mm - arg_start mm))); lia. }
  unfold copy_from_user.
  destruct (_ =? 0); [|apply added_unchanged; assumption].
  apply append_data_added; try assumption; try lia;
    [apply Hw | type_range | type_in].
Qed.

Lemma append_caps_added w conn meta l :
  world_sane w -> blob_ok meta l ->
  added (item_types_of conn) meta l (kdbus_meta_append_caps w meta).
Proof.
  intros Hw Hb. unfold kdbus_meta_append_caps. cbv zeta.
  apply append_data_added; try assumption;
    [apply Hw | unfold sizeof_caps, _KERNEL_CAPABILITY_U32S; lia
     | type_range | type_in].
Qed.

Lemma append_cgroup_added w conn meta l :
  world_sane w -> blob_ok meta l ->
  added (item_types_of conn) meta l (kdbus_meta_append_cgroup w meta).
Proof.
  intros Hw Hb. unfold kdbus_meta_append_cgroup.
  destruct (get_free_page_ok w at_cgroup); cbn [negb];
    [|apply added_unchanged; assumption].
  cbv zeta.
  destruct (0 <=? fst (task_cgroup_path w));
    [|apply added_unchanged; assumption].
  apply item_result_added with (ty := KDBUS_ITEM_CGROUP);
    [assumption | type_in |].
  apply append_str_ok; try assumption; [apply Hw | | type_range].
  unfold strlen, PAGE_SIZE. rewrite length_firstn. lia.
Qed.

Lemma append_audit_added w conn meta l :
  world_sane w -> blob_ok meta l ->
  added (item_types_of conn) meta l (kdbus_meta_append_audit w meta).
Proof.
  intros Hw Hb. unfold kdbus_meta_append_audit. cbv zeta.
  apply append_data_added; try assumption;
    [apply Hw | unfold sizeof_kdbus_audit; lia | type_range | type_in].
Qed.

Lemma append_seclabel_added w conn meta l :
  world_sane w -> blob_ok meta l ->
  added (item_types_of conn) meta l (kdbus_meta_append_seclabel w meta).
Proof.
  intros Hw Hb. unfold kdbus_meta_append_seclabel. cbv zeta.
  destruct (_ =? - EOPNOTSUPP); [apply added_unchanged; assumption|].
  destruct (_ <? 0); [apply added_unchanged; assumption|].
  destruct (snd (security_secid_to_secctx w)) as [label|];
    [|apply added_unchanged; assumption].
  destruct (0 <? _); [|apply added_unchanged; assumption].
  pose proof (wrap32_range (Z.of_nat (length label))).
  apply append_data_added; try assumption; try lia;
    [apply Hw | type_range | type_in].
Qed.

Lemma append_timestamp_added w conn meta l :
  world_sane w -> blob_ok meta l ->
  added (item_types_of conn) meta l (kdbus_meta_append_timestamp w meta).
Proof.
  intros Hw Hb.
  apply item_result_added with (ty := KDBUS_ITEM_TIMESTAMP);
    [assumption | type_in |].
  apply append_timestamp_ok; try assumption. type_range.
Qed.

Lemma append_src_names_added w conn meta l :
  world_sane w -> conn_sane conn -> blob_ok meta l ->
  added (item_types_of conn) meta l (kdbus_meta_append_src_names w meta conn).
Proof.
  intros Hw Hc Hb.
  pose proof (append_src_names_ok w meta conn l Hw Hc Hb
                ltac:(type_range)) as H.
  cbv zeta in H. unfold item_types_of.
  destruct conn as [c|].
  - destruct (names_list c) as [|e names].
    + rewrite H. apply added_unchanged. assumption.
    + eapply item_result_added; [assumption | | exact H].
      apply in_or_app. right. left. reflexivity.
  - rewrite H. apply added_unchanged. assumption.
Qed.

Lemma flags_differ i j :
  (i < 10)%nat -> (j < 10)%nat -> i <> j ->
  nth i attach_flags 0 <> nth j attach_flags 0.
Proof.
  intros Hi Hj Hne E.
  apply (proj1 (NoDup_nth attach_flags 0) attach_flags_NoDup) in E;
    [contradiction | exact Hi | exact Hj].
Qed.

Lemma block_from_added conn i P :
  (i < 10)%nat -> i <> 1%nat ->
  (forall meta l, blob_ok meta l ->
     added (item_types_of conn) meta l (P meta)) ->
  block_ok conn (nth i attach_flags 0, P).
Proof.
  intros Hi Hne HP. split; cbn [fst snd].
  - apply attach_flag_bit. apply nth_In. exact Hi.
  - intros meta l Hb. destruct (HP meta l Hb) as (Hatt & new & Hok & Hf).
    split; [exact Hatt|]. exists new.
    split; [exact Hok|]. split; [exact Hf|].
    intros E _. exfalso.
    apply (flags_differ i 1 Hi ltac:(lia) Hne). exact E.
Qed.

Lemma block_cred conn w :
  world_sane w -> block_ok conn (KDBUS_ATTACH_CREDS, kdbus_meta_append_cred w).
Proof.
  intros Hw. split; cbn [fst snd].
  - apply attach_flag_bit. unfold attach_flags. cbn. tauto.
  - intros meta l Hb.
    pose proof (append_cred_ok w meta l Hw Hb ltac:(type_range))
      as (Hatt & [[Hneg E]|[E (it & Hty & _ & Hok)]]).
    + split; [exact Hatt|]. exists []. rewrite app_nil_r, E.
      split; [assumption|]. split; [constructor|].
      intros _ Hn. lia.
    + split; [exact Hatt|]. exists [it].
      split; [assumption|]. split.
      * constructor; [rewrite Hty; type_in | constructor].
      * intros _ _. constructor. exact Hty.
Qed.

Lemma producers_ok w conn :
  world_sane w -> conn_sane conn ->
  Forall (block_ok conn) (producers w conn).
Proof.
  intros Hw Hc. unfold producers.
  apply Forall_app; split;
    [|apply Forall_app; split; [|apply Forall_app; split]].
  - apply Forall_cons.
    { apply (block_from_added conn 0); [lia | lia |].
      intros; apply append_timestamp_added; assumption. }
    apply Forall_cons; [apply block_cred; assumption|].
    apply Forall_cons.
    { apply (block_from_added conn 2); [lia | lia |].
      intros; apply append_src_names_added; assumption. }
    apply Forall_cons.
    { apply (block_from_added conn 3); [lia | lia |].
      intros; apply append_comm_added; assumption. }
    apply Forall_cons.
    { apply (block_from_added conn 4); [lia | lia |].
      intros; apply append_exe_added; assumption. }
    apply Forall_cons.
    { apply (block_from_added conn 5); [lia | lia |].
      intros; apply append_cmdline_added; assumption. }
    apply Forall_cons.
    { apply (block_from_added conn 6); [lia | lia |].
      intros; apply append_caps_added; assumption. }
    apply Forall_nil.
  - destruct CONFIG_CGROUPS; [|apply Forall_nil].
    apply Forall_cons; [|apply Forall_nil].
    apply (block_from_added conn 7); [lia | lia |].
    intros; apply append_cgroup_added; assumption.
  - destruct CONFIG_AUDITSYSCALL; [|apply Forall_nil].
    apply Forall_cons; [|apply Forall_nil].
    apply (block_from_added conn 8); [lia | lia |].
    intros; apply append_audit_added; assumption.
  - destruct CONFIG_SECURITY; [|apply Forall_nil].
    apply Forall_cons; [|apply Forall_nil].
    apply (block_from_added conn 9); [lia | lia |].
    intros; apply append_seclabel_added; assumption.
Qed.

End Blocks.

(** ** The attached mask through a call *)

Lemma append_item_attached a meta extra_size :
  attached (snd (kdbus_meta_append_item a meta extra_size)) = attached meta.
Proof.
  unfold kdbus_meta_append_item.
  destruct (data meta);
    repeat match goal with
      | |- context [if ?c then _ else _] => destruct c
      end; reflexivity.
Qed.

Lemma append_data_attached a meta ty buf len :
  attached (snd (kdbus_meta_append_data a meta ty buf len)) = attached meta.
Proof.
  unfold kdbus_meta_append_data.
  destruct (len =? 0); [reflexivity|].
  pose proof (append_item_attached a meta (KDBUS_ITEM_SIZE len)) as H.
  destruct (kdbus_meta_append_item a meta (KDBUS_ITEM_SIZE len)) as [[item|err] m];
    cbn [snd] in *; [|assumption].
  unfold item_set_data, item_set_size, item_set_type.
  rewrite !attached_meta_write. assumption.
Qed.

Lemma copy_names_attached l : forall m item pos,
  attached (fst (copy_names m item l pos)) = attached m.
Proof.
  induction l as [|e l IH]; intros; cbn [copy_names fst]; [reflexivity|].
  rewrite IH. unfold item_set_data. apply attached_meta_write.
Qed.

Section Attached.

Context {K : kdbus_h}.

Lemma producers_keep_attached w conn :
  Forall keeps_attached (producers w conn).
Proof.
  unfold producers.
  (apply Forall_app; split;
     [|apply Forall_app; split; [|apply Forall_app; split]]);
    [ | destruct CONFIG_CGROUPS | destruct CONFIG_AUDITSYSCALL
      | destruct CONFIG_SECURITY ];
    repeat (apply Forall_cons;
            [unfold keeps_attached; intros meta; cbn [fst snd]|]);
    try apply Forall_nil.
  - unfold kdbus_meta_append_timestamp.
    pose proof (append_item_attached (alloc_at w at_timestamp) meta
                  (KDBUS_ITEM_SIZE sizeof_kdbus_timestamp)) as H.
    destruct (kdbus_meta_append_item _ _ _) as [[item|err] m];
      cbn [snd] in *; [|assumption].
    unfold item_set_data, item_set_size, item_set_type.
    rewrite !attached_meta_write. assumption.
  - unfold kdbus_meta_append_cred.
    pose proof (append_item_attached (alloc_at w at_cred) meta
                  (KDBUS_ITEM_SIZE sizeof_kdbus_creds)) as H.
    cbv zeta.
    destruct (kdbus_meta_append_item _ _ _) as [[item|err] m];
      cbn [snd] in *; [|assumption].
    unfold item_set_data, item_set_size, item_set_type.
    rewrite !attached_meta_write. assumption.
  - unfold kdbus_meta_append_src_names.
    destruct conn as [c|]; [|reflexivity].
    destruct (_ =? 0); [reflexivity|].
    pose proof (append_item_attached (alloc_at w at_src_names) meta
                  (KDBUS_ITEM_SIZE (names_strsize (names_list c)))) as H.
    destruct (kdbus_meta_append_item _ _ _) as [[item|err] m];
      cbn [snd] in *; [|assumption].
    cbv zeta.
    match goal with
    | |- context [copy_names ?m0 ?i ?l ?p] =>
        pose proof (copy_names_attached l m0 i p) as Hc;
        destruct (copy_names m0 i l p) as [m2 pos]
    end.
    cbn [fst snd set_src_names attached] in *. rewrite Hc.
    unfold item_set_size, item_set_type.
    rewrite !attached_meta_write. assumption.
  - unfold kdbus_meta_append_comm, kdbus_meta_append_str. cbv zeta.
    match goal with
    | |- context [kdbus_meta_append_data ?a ?m ?t ?b ?n] =>
        pose proof (append_data_attached a m t b n) as H1;
        destruct (kdbus_meta_append_data a m t b n) as [ret m1]
    end.
    cbn [snd] in H1.
    destruct (ret <? 0); [exact H1|].
    rewrite append_data_attached. exact H1.
  - unfold kdbus_meta_append_exe.
    destruct (current_mm w) as [mm|]; [|reflexivity].
    destruct (exe_file mm); [|reflexivity].
    destruct (negb _); [reflexivity|].
    destruct (d_path _ _ _) as [[p|e] tmp]; [|reflexivity].
    apply append_data_attached.
  - unfold kdbus_meta_append_cmdline.
    destruct (negb _); [reflexivity|].
    destruct (current_mm w) as [mm|]; [|reflexivity].
    destruct (negb _); [|reflexivity].
    cbv zeta. destruct (copy_from_user _ _ _ _) as [ret tmp].
    destruct (ret =? 0); [|reflexivity].
    apply append_data_attached.
  - unfold kdbus_meta_append_caps. apply append_data_attached.
  - unfold kdbus_meta_append_cgroup.
    destruct (negb _); [reflexivity|].
    cbv zeta. destruct (0 <=? _); [|reflexivity].
    apply append_data_attached.
  - unfold kdbus_meta_append_audit. apply append_data_attached.
  - unfold kdbus_meta_append_seclabel. cbv zeta.
    destruct (_ =? _); [reflexivity|].
    destruct (_ <? 0); [reflexivity|].
    destruct (snd (security_secid_to_secctx w)); [|reflexivity].
    destruct (0 <? _); [|reflexivity].
    apply append_data_attached.
Qed.

(** Bits of the mask are only ever added. *)
Lemma attach_blocks_mono which L : forall ret meta f,
  Forall keeps_attached L ->
  is_attached meta f ->
  is_attached (snd (attach_blocks which L ret meta)) f.
Proof.
  induction L as [|[flag P] L IH]; intros ret meta f HL Hf;
    cbn [attach_blocks]; [exact Hf|].
  inversion HL as [|fp L' Hk HL']; subst.
  destruct (negb _ && _); [|apply IH; assumption].
  specialize (Hk meta). cbn [fst snd] in Hk.
  destruct (P meta) as [ret' m']. cbn [snd] in Hk.
  destruct (ret' <? 0).
  - cbn [snd]. unfold is_attached in *. rewrite Hk. exact Hf.
  - apply IH; [assumption|].
    unfold is_attached in *. cbn [set_attached attached].
    apply land_lor_keeps. rewrite Hk. exact Hf.
Qed.

(** A call that does not fail leaves every requested category of the
    list attached. *)
Lemma attach_blocks_marks which L : forall ret meta,
  Forall keeps_attached L ->
  ~ fst (attach_blocks which L ret meta) < 0 ->
  forall fp, In fp L -> Z.land which (fst fp) <> 0 ->
    is_attached (snd (attach_blocks which L ret meta)) (fst fp).
Proof.
  induction L as [|[flag P] L IH]; intros ret meta HL Hret fp Hin Hw;
    [contradiction|].
  inversion HL as [|fp' L' Hk HL']; subst.
  cbn [attach_blocks] in *.
  destruct (Z.eqb_spec (Z.land which flag) 0) as [E0|E0]; cbn [negb andb] in *.
  - destruct Hin as [<-|Hin]; [cbn [fst] in Hw; contradiction|].
    apply IH; assumption.
  - destruct (Z.eqb_spec (Z.land (attached meta) flag) 0) as [E1|E1].
    + specialize (Hk meta). cbn [fst snd] in Hk.
      destruct (P meta) as [ret' m']. cbn [snd] in Hk.
      destruct (Z.ltb_spec ret' 0) as [Hneg|Hpos];
        [cbn [fst] in Hret; lia|].
      destruct Hin as [<-|Hin].
      * cbn [fst]. apply attach_blocks_mono; [assumption|].
        unfold is_attached. cbn [set_attached attached].
        apply land_lor_flag. intros ->. rewrite Z.land_0_r in E0. lia.
      * apply IH; assumption.
    + destruct Hin as [<-|Hin].
      * cbn [fst]. apply attach_blocks_mono; assumption.
      * apply IH; assumption.
Qed.

(** When every requested category of the list is attached, nothing runs. *)
Lemma attach_blocks_skip which L : forall ret meta,
  (forall fp, In fp L -> Z.land which (fst fp) <> 0 ->
     is_attached meta (fst fp)) ->
  attach_blocks which L ret meta = (ret, meta).
Proof.
  induction L as [|[flag P] L IH]; intros ret meta H; [reflexivity|].
  cbn [attach_blocks].
  destruct (Z.eqb_spec (Z.land which flag) 0) as [E0|E0]; cbn [negb andb].
  - apply IH. intros fp Hin. apply H. right. exact Hin.
  - specialize (H (flag, P) (or_introl eq_refl) E0) as Hf.
    unfold is_attached in Hf. cbn [fst] in Hf.
    destruct (Z.eqb_spec (Z.land (attached meta) flag) 0); [contradiction|].
    apply IH. intros fp Hin. apply H. right. exact Hin.
Qed.

Lemma blob_ok_set_attached meta l v :
  blob_ok meta l -> blob_ok (set_attached meta v) l.
Proof. intros H. exact H. Qed.

(** The snapshot stays well formed through the blocks, and only gains
    items of the types the connection allows. *)
Lemma attach_blocks_snapshot conn which L : forall ret meta l,
  Forall (block_ok conn) L ->
  snapshot_ok meta l ->
  exists new,
    snapshot_ok (snd (attach_blocks which L ret meta)) (l ++ new)
    /\ Forall (fun it => In (item_type it) (item_types_of conn)) new.
Proof.
  induction L as [|[flag P] L IH]; intros ret meta l HL [Hb Hc].
  - exists []. rewrite app_nil_r. split; [split; assumption | constructor].
  - inversion HL as [|fp L' [Hbit Hk] HL']; subst.
    cbn [attach_blocks].
    destruct (negb _ && _); [|apply IH; [assumption | split; assumption]].
    destruct (Hk meta l Hb) as (Hatt & new1 & Hok & Hty & Hcred).
    cbn [fst snd] in *.
    destruct (P meta) as [ret' m']. cbn [fst snd] in *.
    destruct (Z.ltb_spec ret' 0) as [Hneg|Hpos].
    + exists new1. cbn [snd]. split; [split; [assumption|] | assumption].
      intros Ha. apply Exists_app. left. apply Hc.
      unfold is_attached in *. rewrite <- Hatt. exact Ha.
    + destruct (IH ret' (set_attached m' (Z.lor (attached m') flag))
                  (l ++ new1) HL') as (new2 & Hs2 & Hty2).
      * split; [apply blob_ok_set_attached; assumption|].
        intros Ha. unfold is_attached in Ha. cbn [set_attached attached] in Ha.
        apply Exists_app.
        destruct (Z.eq_dec flag KDBUS_ATTACH_CREDS) as [E|E].
        -- right. apply Hcred; [exact E | lia].
        -- left. apply Hc. unfold is_attached.
           rewrite land_lor_other in Ha.
           ++ rewrite <- Hatt. exact Ha.
           ++ apply flag_bits_disjoint; [exact Hbit | | exact E].
              apply attach_flag_bit. unfold attach_flags. cbn. tauto.
      * exists (new1 ++ new2). rewrite app_assoc. split; [exact Hs2|].
        apply Forall_app. split; assumption.
Qed.

End Attached.

(** ** Growth of the buffer *)

Lemma roundup_smallest n :
  1 <= n <= 2 ^ 63 -> smallest_pow2_ge n (roundup_pow_of_two n).
Proof.
  intros Hn. destruct (roundup_pow_of_two_spec n Hn) as (k & Hk & E & H1 & H2).
  rewrite E. split; [exists k; split; [assumption | reflexivity]|]. lia.
Qed.

Lemma pow2_tighten r lo hi :
  is_pow2 0 63 r -> 0 <= lo -> 2 ^ lo <= r -> r <= 2 ^ hi -> is_pow2 lo hi r.
Proof.
  intros (k & Hk & ->) Hlo H1 H2. exists k. split; [|reflexivity]. split.
  - destruct (Z.le_gt_cases lo k) as [|Hlt]; [assumption|].
    assert (2 ^ k < 2 ^ lo) by (apply Z.pow_lt_mono_r; lia). lia.
  - destruct (Z.le_gt_cases k hi) as [|Hgt]; [assumption|].
    assert (0 <= hi \/ hi < 0) as [Hh|Hh] by lia.
    + assert (2 ^ hi < 2 ^ k) by (apply Z.pow_lt_mono_r; lia). lia.
    + rewrite (Z.pow_neg_r 2 hi) in H2 by lia.
      assert (0 < 2 ^ k) by (apply Z.pow_pos_nonneg; lia). lia.
Qed.

Lemma pow2_double lo hi lo' hi' a b :
  0 <= lo -> is_pow2 lo hi a -> is_pow2 lo' hi' b -> a < b -> 2 * a <= b.
Proof.
  intros Hlo (i & Hi & ->) (j & Hj & ->) Hlt.
  assert (i < j).
  { destruct (Z.lt_ge_cases i j) as [|Hge]; [assumption|].
    assert (0 <= j \/ j < 0) as [Hj0|Hj0] by lia.
    - assert (2 ^ j <= 2 ^ i) by (apply Z.pow_le_mono_r; lia). lia.
    - rewrite (Z.pow_neg_r 2 j) in Hlt by lia.
      assert (0 < 2 ^ i) by (apply Z.pow_pos_nonneg; lia). lia. }
  replace (2 * 2 ^ i) with (2 ^ (i + 1)) by (rewrite Z.pow_add_r; lia).
  apply Z.pow_le_mono_r; lia.
Qed.

Lemma sizes_ok_intro meta d :
  data meta = Some d ->
  0 <= size meta -> size meta mod 8 = 0 ->
  Z.of_nat (length d) = allocated_size meta ->
  size meta <= allocated_size meta ->
  is_pow2 8 62 (allocated_size meta) ->
  sizes_ok meta.
Proof.
  intros Ed H0 H8 Hl Hle Hp. unfold sizes_ok. rewrite Ed.
  split; [assumption|]. split; [assumption|].
  split; [assumption|]. split; assumption.
Qed.

(** One call of [kdbus_meta_append_item], by what it does to the buffer. *)
Lemma append_item_growth a meta extra_size :
  allocator_sane a -> sizes_ok meta -> 0 <= extra_size <= 2 ^ 33 ->
  let r := kdbus_meta_append_item a meta extra_size in
  let n := KDBUS_ALIGN8 extra_size in
  sizes_ok (snd r)
  /\ match fst r with
     | ERR_PTR err => err = - ENOMEM /\ snd r = meta
     | Item item =>
         item = size meta /\ size (snd r) = size meta + n
         /\ match data meta with
            | None =>
                smallest_pow2_ge (256 + n) (allocated_size (snd r))
                /\ data (snd r) = Some (zeros (allocated_size (snd r)))
            | Some d =>
                if allocated_size meta <? size meta + n then
                  smallest_pow2_ge (size meta + n) (allocated_size (snd r))
                  /\ 2 * allocated_size meta <= allocated_size (snd r)
                  /\ exists d', data (snd r) = Some d'
                       /\ mem_read d' 0 (size meta) = mem_read d 0 (size meta)
                       /\ mem_read d' (allocated_size meta)
                            (allocated_size (snd r) - allocated_size meta)
                          = zeros (allocated_size (snd r) - allocated_size meta)
                else data (snd r) = Some d
                     /\ allocated_size (snd r) = allocated_size meta
            end
     end.
Proof.
  intros Ha Hs He r n. subst r.
  rewrite (append_item_cases a meta extra_size Ha Hs He). fold n.
  destruct Hs as (Hs0 & Hs8 & Hd).
  pose proof (KDBUS_ALIGN8_bounds extra_size ltac:(lia) ltac:(lia)) as Hn.
  pose proof (KDBUS_ALIGN8_mod8 extra_size) as Hn8.
  fold n in Hn, Hn8.
  assert (Hmod : (size meta + n) mod 8 = 0).
  { rewrite Z.add_mod, Hs8, Hn8 by lia. reflexivity. }
  destruct (data meta) as [d|] eqn:Ed.
  - destruct Hd as (Hlen & Hle & Hp).
    pose proof (pow2_bounds 8 62 _ ltac:(lia) Hp) as Hpb.
    destruct (Z.ltb_spec (allocated_size meta) (size meta + n)) as [Hlt|Hge].
    + cbv zeta.
      pose proof (roundup_smallest (size meta + n) ltac:(lia)) as Hr.
      destruct (kmalloc_ok a (roundup_pow_of_two (size meta + n))) eqn:Eok.
      * destruct (Ha (roundup_pow_of_two (size meta + n))) as [_ H2].
        specialize (H2 Eok). unfold ALLOC_LIMIT in H2.
        set (r := roundup_pow_of_two (size meta + n)) in *.
        pose proof Hr as (Hr0 & Hr1 & Hr2).
        assert (Hp' : is_pow2 8 62 r) by (apply pow2_tighten; lia || assumption).
        cbn [fst snd].
        split.
        { apply sizes_ok_intro with
            (d := memset (mem_write (kmalloc_block a r) 0
                            (mem_read d 0 (size meta)))
                    (allocated_size meta) NUL (r - allocated_size meta));
            cbn [size set_size set_block data allocated_size];
            try reflexivity; try assumption; try lia.
          apply grown_block_length; lia. }
        split; [reflexivity|]. split; [reflexivity|].
        cbn [size set_size set_block data allocated_size].
        split; [exact Hr|].
        split; [apply (pow2_double 8 62 8 62); assumption || lia|].
        eexists. split; [reflexivity|]. split.
        -- rewrite !mem_read_0. apply grown_block_prefix; lia.
        -- apply grown_block_tail; lia.
      * cbn [fst snd]. split; [|split; reflexivity].
        apply sizes_ok_intro with (d := d); assumption.
    + cbn [fst snd].
      split.
      { apply sizes_ok_intro with (d := d);
          cbn [size set_size data allocated_size]; try assumption; lia. }
      split; [reflexivity|]. split; [reflexivity|].
      split; [exact Ed | reflexivity].
  - cbv zeta.
    pose proof (roundup_smallest (256 + n) ltac:(lia)) as Hr.
    destruct (kzalloc_ok a (roundup_pow_of_two (256 + n))) eqn:Eok.
    + destruct (Ha (roundup_pow_of_two (256 + n))) as [H1 _].
      specialize (H1 Eok). unfold ALLOC_LIMIT in H1.
      set (r := roundup_pow_of_two (256 + n)) in *.
      pose proof Hr as (Hr0 & Hr1 & Hr2).
      assert (Hp' : is_pow2 8 62 r) by (apply pow2_tighten; lia || assumption).
      cbn [fst snd].
      split.
      { apply sizes_ok_intro with (d := zeros r);
          cbn [size set_size set_block data allocated_size];
          try reflexivity; try assumption; try lia.
        apply zeros_length; lia. }
      cbn [size set_size set_block data allocated_size].
      split; [lia|]. split; [lia|].
      split; [exact Hr | reflexivity].
    + cbn [fst snd]. split; [|split; reflexivity].
      unfold sizes_ok. rewrite Ed.
      split; [assumption|]. split; assumption.
Qed.

Lemma reallocated_same meta : reallocated meta meta = false.
Proof.
  unfold reallocated. destruct (data meta); [|reflexivity].
  rewrite Z.eqb_refl. reflexivity.
Qed.

Lemma append_items_cons meta a e L :
  append_items meta ((a, e) :: L)
  = (fst (append_items (snd (kdbus_meta_append_item a meta e)) L),
     ((if reallocated meta (snd (kdbus_meta_append_item a meta e))
       then 1 else 0)
      + snd (append_items (snd (kdbus_meta_append_item a meta e)) L))%nat).
Proof.
  cbn [append_items].
  destruct (append_items (snd (kdbus_meta_append_item a meta e)) L).
  reflexivity.
Qed.

(** From an allocated buffer on: every reallocation at least doubles the
    capacity, and a capacity that changed is below twice the size. *)
Lemma append_items_some B L : forall meta,
  Forall (step_ok B) L -> sizes_ok meta -> data meta <> None -> 0 <= B ->
  let r := append_items meta L in
  sizes_ok (fst r) /\ data (fst r) <> None
  /\ 2 ^ Z.of_nat (snd r) * allocated_size meta <= allocated_size (fst r)
  /\ size meta <= size (fst r) <= size meta + B * Z.of_nat (length L)
  /\ (allocated_size (fst r) = allocated_size meta
      \/ allocated_size (fst r) < 2 * size (fst r)).
Proof.
  induction L as [|[a e] L IH]; intros meta HL Hs Hd HB.
  - cbn [append_items fst snd length Z.of_nat]. rewrite Z.pow_0_r.
    split; [assumption|]. split; [assumption|].
    split; [lia|]. split; [lia|]. left. reflexivity.
  - inversion HL as [|ae L' (Ha & He & Hn) HL']; subst. cbn [fst snd] in *.
    rewrite append_items_cons. cbv zeta. cbn [fst snd].
    pose proof (append_item_growth a meta e Ha Hs He) as Hg.
    cbv zeta in Hg. destruct Hg as (Hs' & Hg).
    pose proof (KDBUS_ALIGN8_range e) as Hr.
    set (meta' := snd (kdbus_meta_append_item a meta e)) in *.
    assert (Hpb : 256 <= allocated_size meta).
    { destruct Hs as (_ & _ & Hm). destruct (data meta); [|contradiction].
      destruct Hm as (_ & _ & Hp).
      apply (pow2_bounds 8 62) in Hp; lia. }
    assert (Hstep : data meta' <> None
                    /\ size meta <= size meta' <= size meta + B
                    /\ ((reallocated meta meta' = false
                         /\ allocated_size meta' = allocated_size meta)
                        \/ (reallocated meta meta' = true
                            /\ 2 * allocated_size meta <= allocated_size meta'
                            /\ allocated_size meta' < 2 * size meta'))).
    { destruct (fst (kdbus_meta_append_item a meta e)) as [item|err].
      - destruct Hg as (_ & Hsz & Hg).
        destruct (data meta) as [d|] eqn:Ed; [|contradiction].
        destruct (allocated_size meta <? size meta + KDBUS_ALIGN8 e).
        + destruct Hg as ((_ & _ & Hlt) & Hdbl & d' & Ed' & _).
          split; [congruence|]. split; [lia|]. right.
          split; [|lia].
          unfold reallocated. rewrite Ed.
          destruct (Z.eqb_spec (allocated_size meta') (allocated_size meta));
            [lia | reflexivity].
        + destruct Hg as (Ed' & Ea).
          split; [congruence|]. split; [lia|]. left.
          split; [|assumption].
          unfold reallocated. rewrite Ed, Ea, Z.eqb_refl. reflexivity.
      - destruct Hg as (_ & E). rewrite E.
        split; [assumption|]. split; [lia|]. left.
        split; [apply reallocated_same | reflexivity]. }
    destruct Hstep as (Hd' & Hsz & Hre).
    specialize (IH meta' HL' Hs' Hd' HB). cbv zeta in IH.
    destruct IH as (Hs2 & Hd2 & Hpow & Hsize & Hcap).
    set (m := fst (append_items meta' L)) in *.
    set (c := snd (append_items meta' L)) in *.
    split; [assumption|]. split; [assumption|].
    assert (Hc0 : 0 < 2 ^ Z.of_nat c) by (apply Z.pow_pos_nonneg; lia).
    change (length ((a, e) :: L)) with (S (length L)).
    rewrite Nat2Z.inj_succ.
    destruct Hre as [(-> & Ea)|(-> & Hdbl & Hlt)].
    + cbn [Nat.add]. rewrite Ea in *.
      split; [assumption|]. split; [nia|]. assumption.
    + change (1 + c)%nat with (S c).
      rewrite Nat2Z.inj_succ, Z.pow_succ_r by lia.
      split; [nia|]. split; [nia|].
      right. destruct Hcap as [E|H]; lia.
Qed.

(** From a fresh snapshot on. *)
Lemma append_items_none B L : forall meta,
  Forall (step_ok B) L -> sizes_ok meta -> data meta = None -> 0 <= B ->
  let r := append_items meta L in
  (data (fst r) = None /\ snd r = O)
  \/ (is_pow2 8 62 (allocated_size (fst r))
      /\ 2 ^ Z.of_nat (snd r) * 256 <= allocated_size (fst r)
      /\ allocated_size (fst r) < 2 * (256 + B * Z.of_nat (length L))).
Proof.
  induction L as [|[a e] L IH]; intros meta HL Hs Hd HB.
  - left. cbn. split; [assumption | reflexivity].
  - inversion HL as [|ae L' (Ha & He & Hn) HL']; subst. cbn [fst snd] in *.
    rewrite append_items_cons. cbv zeta. cbn [fst snd].
    pose proof (append_item_growth a meta e Ha Hs He) as Hg.
    cbv zeta in Hg. destruct Hg as (Hs' & Hg).
    pose proof (KDBUS_ALIGN8_range e) as Hr.
    set (meta' := snd (kdbus_meta_append_item a meta e)) in *.
    assert (Hre : reallocated meta meta' = false).
    { unfold reallocated. rewrite Hd. reflexivity. }
    rewrite Hre. cbn [Nat.add].
    change (length ((a, e) :: L)) with (S (length L)).
    rewrite Nat2Z.inj_succ.
    destruct (fst (kdbus_meta_append_item a meta e)) as [item|err].
    + destruct Hg as (_ & Hsz & Hg). rewrite Hd in Hg.
      destruct Hg as ((Hp & Hlo & Hhi) & Ed').
      assert (Hd' : data meta' <> None) by congruence.
      pose proof (append_items_some B L meta' HL' Hs' Hd' HB) as H.
      cbv zeta in H. destruct H as (Hs2 & Hd2 & Hpow & Hsize & Hcap).
      set (m := fst (append_items meta' L)) in *.
      set (c := snd (append_items meta' L)) in *.
      assert (Hc0 : 0 < 2 ^ Z.of_nat c) by (apply Z.pow_pos_nonneg; lia).
      assert (Hs0 : size meta = 0).
      { destruct Hs as (_ & _ & Hm). rewrite Hd in Hm. exact Hm. }
      right. split.
      * destruct Hs2 as (_ & _ & Hm). destruct (data m); [|contradiction].
        destruct Hm as (_ & _ & Hp2). exact Hp2.
      * split; [nia|]. destruct Hcap as [E|H]; nia.
    + destruct Hg as (_ & E). rewrite E in *.
      destruct (IH meta HL' Hs Hd HB) as [H|(Hp & Hlo & Hhi)];
        [left; exact H | right].
      split; [assumption|]. split; [assumption|]. nia.
Qed.

(** * The endpoint checks *)

Section EndpointProofs.

Variable kdbus_policy_db : Type.
Variable see : kdbus_policy_db -> cred -> cstring -> Z.
Variable talk : kdbus_policy_db -> kdbus_conn -> kdbus_conn -> Z.
Variable own : kdbus_policy_db -> cred -> cstring -> Z.

Local Notation "'check_see_unlocked'" :=
  (kdbus_ep_policy_check_see_access_unlocked _ see).
Local Notation "'check_see'" := (kdbus_ep_policy_check_see_access _ see).
Local Notation "'check_src_names'" := (kdbus_ep_policy_check_src_names _ see).
Local Notation "'check_talk'" := (kdbus_ep_policy_check_talk_access _ talk).
Local Notation "'check_own'" := (kdbus_ep_policy_check_own_access _ own).

Lemma see_unlocked_cases (ep : kdbus_ep kdbus_policy_db) conn nm :
  check_see_unlocked ep conn nm
  = if has_policy ep then
      if see (policy_db ep) (conn_cred conn) nm =? - EPERM then - ENOENT
      else see (policy_db ep) (conn_cred conn) nm
    else 0.
Proof.
  unfold kdbus_ep_policy_check_see_access_unlocked.
  destruct (has_policy ep); reflexivity.
Qed.

(** C3: on a custom endpoint a TALK denial of the endpoint's own policy
    is returned at once as [-ENOENT]: the result is the same whether the
    source is privileged or not, whatever its fsuid, and whatever the
    bus-wide database, which is not asked. *)
Theorem talk_custom_deny_is_enoent (ep : kdbus_ep kdbus_policy_db) src dst :
  has_policy ep = true ->
  talk (policy_db ep) src dst = - EPERM ->
  check_talk ep src dst = - ENOENT
  /\ check_talk ep src dst <> - EPERM
  /\ forall b, check_talk {| has_policy := true; policy_db := policy_db ep;
                             bus := b |} src dst = - ENOENT.
Proof.
  intros Hp Hd.
  assert (H : forall b, check_talk {| has_policy := true;
                                      policy_db := policy_db ep;
                                      bus := b |} src dst = - ENOENT).
  { intros b. unfold kdbus_ep_policy_check_talk_access.
    cbn [has_policy policy_db]. rewrite Hd, Z.eqb_refl. reflexivity. }
  assert (E : check_talk ep src dst = - ENOENT).
  { destruct ep as [hp db b]. cbn [has_policy policy_db] in *. subst hp.
    apply H. }
  split; [exact E|]. split; [|exact H].
  rewrite E. unfold ENOENT, EPERM. lia.
Qed.

(** C1, as amended: a privileged source is allowed on a default endpoint,
    and on a custom endpoint whose own policy does not refuse it; when the
    custom policy denies, the result is [-ENOENT] even for a privileged
    source. *)
Theorem talk_privileged (ep : kdbus_ep kdbus_policy_db) src dst :
  privileged src = true ->
  (has_policy ep = false -> check_talk ep src dst = 0)
  /\ (has_policy ep = true -> 0 <= talk (policy_db ep) src dst ->
      check_talk ep src dst = 0)
  /\ (has_policy ep = true -> talk (policy_db ep) src dst = - EPERM ->
      check_talk ep src dst = - ENOENT).
Proof.
  intros Hpriv. unfold kdbus_ep_policy_check_talk_access. rewrite Hpriv.
  repeat split; intros Hp; rewrite Hp; [reflexivity | |].
  - intros Hok. cbv zeta.
    destruct (Z.eqb_spec (talk (policy_db ep) src dst) (- EPERM)) as [E|_].
    + rewrite E in Hok. unfold EPERM in Hok. lia.
    + destruct (Z.ltb_spec (talk (policy_db ep) src dst) 0); [lia|reflexivity].
  - intros Hd. rewrite Hd, Z.eqb_refl. reflexivity.
Qed.

(** C4: on a custom endpoint a SEE denial of the policy database comes
    back as [-ENOENT], and [-EPERM] is never the result, so a hidden name
    looks like a missing one; on a default endpoint the check always
    allows.  The same holds with and without the locks. *)
Theorem see_denial_is_enoent (ep : kdbus_ep kdbus_policy_db) conn nm :
  (has_policy ep = true ->
   see (policy_db ep) (conn_cred conn) nm = - EPERM ->
   check_see_unlocked ep conn nm = - ENOENT)
  /\ check_see_unlocked ep conn nm <> - EPERM
  /\ (has_policy ep = false -> check_see_unlocked ep conn nm = 0)
  /\ check_see ep conn nm = check_see_unlocked ep conn nm.
Proof.
  rewrite see_unlocked_cases.
  repeat split.
  - intros -> ->. rewrite Z.eqb_refl. reflexivity.
  - destruct (has_policy ep); [|unfold EPERM; lia].
    destruct (Z.eqb_spec (see (policy_db ep) (conn_cred conn) nm) (- EPERM));
      [unfold ENOENT, EPERM; lia | assumption].
  - intros ->. reflexivity.
  - unfold kdbus_ep_policy_check_see_access. apply see_unlocked_cases.
Qed.

(** C9: through a custom endpoint a source that owns no name is refused
    with [-ENOENT] for every destination; through a default endpoint the
    check succeeds whatever names are owned. *)
Theorem src_names_none_owned (ep : kdbus_ep kdbus_policy_db) src dst :
  (has_policy ep = true -> names_list src = [] ->
   check_src_names ep src dst = - ENOENT)
  /\ (has_policy ep = false -> check_src_names ep src dst = 0).
Proof.
  unfold kdbus_ep_policy_check_src_names. split.
  - intros -> ->. reflexivity.
  - intros ->. reflexivity.
Qed.

(** C10: in the OWN check a denial of the endpoint's own policy is
    returned as it is ([-EPERM] stays [-EPERM]); once the endpoint policy
    has allowed, or when there is none, a privileged connection passes
    without the bus-wide database being asked, and any other connection
    gets the answer of the bus-wide database. *)
Theorem own_access_layers (ep : kdbus_ep kdbus_policy_db) conn nm :
  (has_policy ep = true ->
   own (policy_db ep) (conn_cred conn) nm < 0 ->
   check_own ep conn nm = own (policy_db ep) (conn_cred conn) nm)
  /\ (has_policy ep = true ->
      own (policy_db ep) (conn_cred conn) nm = - EPERM ->
      check_own ep conn nm = - EPERM)
  /\ (has_policy ep = false
      \/ 0 <= own (policy_db ep) (conn_cred conn) nm ->
      privileged conn = false ->
      check_own ep conn nm
      = own (bus_policy_db (bus ep)) (conn_cred conn) nm)
  /\ (has_policy ep = false
      \/ 0 <= own (policy_db ep) (conn_cred conn) nm ->
      privileged conn = true ->
      forall b, kdbus_ep_policy_check_own_access _ own
                  {| has_policy := has_policy ep;
                     policy_db := policy_db ep; bus := b |} conn nm = 0).
Proof.
  unfold kdbus_ep_policy_check_own_access. cbn [has_policy policy_db bus].
  repeat split.
  - intros -> Hneg. cbv zeta.
    destruct (Z.ltb_spec (own (policy_db ep) (conn_cred conn) nm) 0);
      [reflexivity | lia].
  - intros -> E. cbv zeta. rewrite E. reflexivity.
  - intros Hok ->. cbv zeta.
    destruct (has_policy ep); [|reflexivity].
    destruct Hok as [Hok|Hok]; [discriminate|].
    destruct (Z.ltb_spec (own (policy_db ep) (conn_cred conn) nm) 0);
      [lia | reflexivity].
  - intros Hok -> b. cbv zeta.
    destruct (has_policy ep); [|reflexivity].
    destruct Hok as [Hok|Hok]; [discriminate|].
    destruct (Z.ltb_spec (own (policy_db ep) (conn_cred conn) nm) 0);
      [lia | reflexivity].
Qed.

End EndpointProofs.

(** C3 on a sample: the endpoint denies, the source is privileged and the
    bus would allow. *)
Lemma talk_custom_deny_is_enoent_witness :
  has_policy denying_ep = true
  /\ sample_check_talk (policy_db denying_ep) privileged_conn other_conn
     = - EPERM
  /\ kdbus_ep_policy_check_talk_access _ sample_check_talk
       denying_ep privileged_conn other_conn = - ENOENT.
Proof.
  split; [reflexivity|]. split; [reflexivity|].
  exact (proj1 (talk_custom_deny_is_enoent sample_db sample_check_talk
                  denying_ep privileged_conn other_conn eq_refl eq_refl)).
Defined.

(** C1 as the specification words it fails: the custom policy denies, the
    source is privileged, and the check does not allow. *)
Lemma talk_privileged_counterexample :
  has_policy denying_ep = true
  /\ sample_check_talk (policy_db denying_ep) privileged_conn other_conn
     = - EPERM
  /\ privileged privileged_conn = true
  /\ kdbus_ep_policy_check_talk_access _ sample_check_talk
       denying_ep privileged_conn other_conn <> 0.
Proof.
  repeat split. vm_compute. discriminate.
Qed.

Lemma talk_privileged_witness :
  privileged privileged_conn = true
  /\ kdbus_ep_policy_check_talk_access _ sample_check_talk
       allowing_ep privileged_conn other_conn = 0.
Proof.
  split; [reflexivity|].
  refine (proj1 (proj2 (talk_privileged sample_db sample_check_talk
                          allowing_ep privileged_conn other_conn eq_refl))
            eq_refl _).
  vm_compute. discriminate.
Defined.

(** * The snapshot through calls of [kdbus_meta_append] *)

Lemma sample_allocator_sane : allocator_sane sample_allocator.
Proof.
  intros n. cbn [sample_allocator kzalloc_ok kmalloc_ok].
  unfold ALLOC_LIMIT. split; intros H; apply Z.leb_le in H; lia.
Qed.

Lemma sample_world_sane : world_sane sample_world.
Proof. intros s. apply sample_allocator_sane. Qed.

Lemma unreadable_args_world_sane : world_sane unreadable_args_world.
Proof. intros s. apply sample_allocator_sane. Qed.

Lemma sample_call_sane : call_sane sample_call.
Proof.
  split; [apply sample_world_sane|].
  cbn. unfold NAMES_LIMIT. lia.
Qed.

Section Snapshot.

Context {K : kdbus_h}.

Lemma zero_snapshot_ok : snapshot_ok kdbus_meta_zero [].
Proof.
  split.
  - unfold blob_ok. cbn [kdbus_meta_zero size data block_of].
    split; [lia|]. split; [reflexivity|]. split; [reflexivity|].
    constructor.
  - intros H. unfold is_attached in H. cbn in H. contradiction.
Qed.

Lemma append_snapshot meta conn which w l :
  world_sane w -> conn_sane conn -> snapshot_ok meta l ->
  exists new,
    snapshot_ok (snd (kdbus_meta_append meta conn which w)) (l ++ new)
    /\ Forall (fun it => In (item_type it) (item_types_of conn)) new.
Proof.
  intros Hw Hc Hs. unfold kdbus_meta_append.
  assert (Hsame : exists new,
             snapshot_ok meta (l ++ new)
             /\ Forall (fun it => In (item_type it) (item_types_of conn)) new).
  { exists []. rewrite app_nil_r. split; [assumption | constructor]. }
  destruct conn as [c|]; [|exact Hsame].
  destruct (Z.land which (attached meta) =? which); [exact Hsame|].
  apply attach_blocks_snapshot; [|assumption].
  apply producers_ok; assumption.
Qed.

Lemma appends_snapshot calls : forall meta l,
  Forall call_sane calls -> snapshot_ok meta l ->
  exists new, snapshot_ok (kdbus_meta_appends meta calls) (l ++ new).
Proof.
  induction calls as [|c calls IH]; intros meta l HF Hs.
  - exists []. rewrite app_nil_r. exact Hs.
  - inversion HF as [|c' calls' [Hw Hc] HF']; subst.
    destruct (append_snapshot meta (call_conn c) (call_which c) (call_world c)
                l Hw Hc Hs) as (new1 & Hs1 & _).
    destruct (IH _ _ HF' Hs1) as (new2 & Hs2).
    exists (new1 ++ new2). rewrite app_assoc. exact Hs2.
Qed.

Lemma blob_ok_readable meta l :
  blob_ok meta l ->
  meta_items (length l) meta = Some l /\ walkable 0 l (size meta).
Proof.
  intros (H0 & H8 & Hd & Hc). split.
  - unfold meta_items. unfold block_of in Hc.
    destruct (data meta) as [d|].
    + destruct Hd as (_ & Hle & Hp).
      apply (pow2_bounds 8 62) in Hp; [|lia].
      apply chain_foreach; [assumption | lia |].
      assert (2 ^ 62 < 2 ^ 64) by (apply Z.pow_lt_mono_r; lia). lia.
    + apply chain_foreach; [assumption | lia |]. rewrite Hd.
      apply Z.pow_pos_nonneg; lia.
  - eapply chain_walkable; [exact Hc | reflexivity].
Qed.

(** After any run of calls within the limits, the logical size is a
    multiple of 8 within the capacity, and a reader that walks the buffer
    with [KDBUS_ITEM_FOREACH] finds items that each start at a multiple of
    8, the next one exactly the rounded-up size later (which is at least
    the declared size), the last one ending at the logical size. *)
Theorem snapshot_walkable calls :
  Forall call_sane calls ->
  let meta := kdbus_meta_appends kdbus_meta_zero calls in
  size meta mod 8 = 0
  /\ (data meta <> None -> size meta <= allocated_size meta)
  /\ exists items,
       meta_items (length items) meta = Some items
       /\ walkable 0 items (size meta).
Proof.
  intros HF meta.
  destruct (appends_snapshot calls kdbus_meta_zero [] HF zero_snapshot_ok)
    as (items & Hb & _).
  cbn [app] in Hb. fold meta in Hb.
  pose proof Hb as (H0 & H8 & Hd & Hc).
  split; [assumption|]. split.
  - intros Hn. destruct (data meta); [|contradiction]. tauto.
  - exists items. apply blob_ok_readable. assumption.
Qed.


End Snapshot.

Lemma snapshot_walkable_witness :
  Forall call_sane [sample_call]
  /\ size (kdbus_meta_appends (K := sample_kdbus_h) kdbus_meta_zero
             [sample_call]) mod 8 = 0.
Proof.
  assert (H : Forall call_sane [sample_call]).
  { constructor; [apply sample_call_sane | constructor]. }
  split; [exact H|].
  exact (proj1 (snapshot_walkable (K := sample_kdbus_h) [sample_call] H)).
Defined.


(** * The attached mask *)

Lemma flag_bit_requested which f :
  is_flag_bit f -> Z.land which f <> 0 -> bits_within f which.
Proof.
  intros (k & Hk & ->) Hw n Hn.
  rewrite Z.pow2_bits_eqb in Hn by lia. apply Z.eqb_eq in Hn. subst n.
  destruct (Z.testbit which k) eqn:E; [reflexivity|].
  exfalso. apply Hw. apply Z.bits_inj'. intros n Hn.
  rewrite Z.land_spec, Z.bits_0, Z.pow2_bits_eqb by lia.
  destruct (Z.eqb_spec k n) as [<-|]; [rewrite E; reflexivity|].
  apply andb_false_r.
Qed.

Lemma flag_bit_unattached a f :
  is_flag_bit f -> Z.land a f = 0 ->
  forall n, Z.testbit f n = true -> Z.testbit a n = false.
Proof.
  intros (k & Hk & ->) Ha n Hn.
  rewrite Z.pow2_bits_eqb in Hn by lia. apply Z.eqb_eq in Hn. subst n.
  apply (f_equal (fun z => Z.testbit z k)) in Ha.
  rewrite Z.land_spec, Z.bits_0, Z.pow2_bits_eqb, Z.eqb_refl, andb_true_r in Ha
    by lia.
  exact Ha.
Qed.

Section Mask.

Context {K : kdbus_h}.

Lemma producers_flags w conn w' conn' :
  map fst (producers w conn) = map fst (producers w' conn').
Proof.
  unfold producers. rewrite !map_app.
  destruct CONFIG_CGROUPS, CONFIG_AUDITSYSCALL, CONFIG_SECURITY; reflexivity.
Qed.

Lemma producers_flags_incl w conn f :
  In f (map fst (producers w conn)) -> In f attach_flags.
Proof.
  unfold producers, attach_flags. rewrite !map_app. intros H.
  repeat (apply in_app_or in H; destruct H as [H|H]).
  - cbn in H |- *. tauto.
  - destruct CONFIG_CGROUPS; cbn in H |- *; tauto.
  - destruct CONFIG_AUDITSYSCALL; cbn in H |- *; tauto.
  - destruct CONFIG_SECURITY; cbn in H |- *; tauto.
Qed.

Lemma producers_flag_bits w conn :
  Forall (fun fp => is_flag_bit (fst fp)) (producers w conn).
Proof.
  apply Forall_forall. intros fp Hin.
  apply attach_flag_bit. apply (producers_flags_incl w conn).
  apply in_map. exact Hin.
Qed.

(** A second call with the same mask after a call that did not fail does
    nothing: it returns 0 and leaves the buffer, the sizes and the mask as
    they are, whatever the connection owns and the kernel answers by then. *)
Theorem append_idempotent meta conn conn' which w w' :
  (conn = None -> conn' = None) ->
  ~ fst (kdbus_meta_append meta conn which w) < 0 ->
  kdbus_meta_append (snd (kdbus_meta_append meta conn which w)) conn' which w'
  = (0, snd (kdbus_meta_append meta conn which w)).
Proof.
  intros Hconn Hret.
  destruct conn' as [c'|]; [|reflexivity].
  destruct conn as [c|]; [|specialize (Hconn eq_refl); discriminate].
  unfold kdbus_meta_append in *.
  destruct (Z.eqb_spec (Z.land which (attached meta)) which) as [E|E].
  - cbn [snd]. rewrite (proj2 (Z.eqb_eq _ _) E). reflexivity.
  - set (r := attach_blocks which (producers w (Some c)) 0 meta) in *.
    destruct (Z.land which (attached (snd r)) =? which); [reflexivity|].
    apply attach_blocks_skip. intros fp Hin Hw.
    assert (Hf : In (fst fp) (map fst (producers w (Some c)))).
    { rewrite (producers_flags w (Some c) w' (Some c')). apply in_map. exact Hin. }
    apply in_map_iff in Hf as (fp0 & E0 & Hin0).
    rewrite <- E0.
    apply (attach_blocks_marks which (producers w (Some c)) 0 meta
             (producers_keep_attached w (Some c)) Hret fp0 Hin0).
    rewrite E0. exact Hw.
Qed.

Lemma attach_blocks_within which L : forall ret meta,
  Forall keeps_attached L ->
  Forall (fun fp => is_flag_bit (fst fp)) L ->
  bits_within (attached (snd (attach_blocks which L ret meta)))
    (Z.lor (attached meta) which).
Proof.
  induction L as [|[flag P] L IH]; intros ret meta HK HB n Hn.
  - cbn [attach_blocks snd] in Hn. rewrite Z.lor_spec, Hn. reflexivity.
  - inversion HK as [|fp1 L1 Hk HK']; subst.
    inversion HB as [|fp2 L2 Hb HB']; subst.
    cbn [fst snd] in *. cbn [attach_blocks] in Hn.
    destruct (Z.eqb_spec (Z.land which flag) 0) as [E0|E0];
      cbn [negb andb] in Hn; [exact (IH ret meta HK' HB' n Hn)|].
    destruct (Z.land (attached meta) flag =? 0);
      [|exact (IH ret meta HK' HB' n Hn)].
    specialize (Hk meta). cbn [fst snd] in Hk.
    destruct (P meta) as [ret' m']. cbn [snd] in Hk.
    destruct (ret' <? 0).
    + cbn [snd] in Hn. rewrite Hk in Hn. rewrite Z.lor_spec, Hn. reflexivity.
    + apply (IH _ _ HK' HB') in Hn.
      cbn [set_attached attached] in Hn.
      rewrite !Z.lor_spec in Hn. rewrite Hk in Hn. rewrite Z.lor_spec.
      destruct (Z.testbit (attached meta) n); [reflexivity|].
      destruct (Z.testbit flag n) eqn:Ef; cbn [orb] in Hn |- *;
        [|exact Hn].
      exact (flag_bit_requested which flag Hb E0 n Ef).
Qed.

(** A call never clears a category and never attaches one that was not
    asked for: the new mask has every bit of the old one, and only bits of
    the old one or of the requested mask. *)
Theorem append_mask_bounds meta conn which w :
  let meta' := snd (kdbus_meta_append meta conn which w) in
  bits_within (attached meta) (attached meta')
  /\ bits_within (attached meta') (Z.lor (attached meta) which).
Proof.
  cbv zeta. unfold kdbus_meta_append.
  assert (Hsame : bits_within (attached meta) (attached meta)
                  /\ bits_within (attached meta) (Z.lor (attached meta) which)).
  { split; intros n Hn; [exact Hn|]. rewrite Z.lor_spec, Hn. reflexivity. }
  destruct conn as [c|]; [|exact Hsame].
  destruct (Z.land which (attached meta) =? which); [exact Hsame|].
  split.
  - intros n Hn.
    pose proof (attach_blocks_mono which (producers w (Some c)) 0 meta
                  (2 ^ n) (producers_keep_attached w (Some c))) as Hm.
    unfold is_attached in Hm.
    destruct (Z.le_gt_cases 0 n) as [H0|H0];
      [|rewrite Z.testbit_neg_r in Hn by lia; discriminate].
    assert (Hbit : forall a, Z.testbit a n = true <-> Z.land a (2 ^ n) <> 0).
    { intros a. split.
      - intros Ha E. apply (f_equal (fun z => Z.testbit z n)) in E.
        rewrite Z.land_spec, Z.bits_0, Z.pow2_bits_eqb, Z.eqb_refl, Ha in E
          by lia. discriminate.
      - intros Ha. destruct (Z.testbit a n) eqn:E; [reflexivity|].
        exfalso. apply Ha. apply Z.bits_inj'. intros m Hm'.
        rewrite Z.land_spec, Z.bits_0, Z.pow2_bits_eqb by lia.
        destruct (Z.eqb_spec n m) as [<-|]; [rewrite E; reflexivity|].
        apply andb_false_r. }
    apply Hbit. apply Hm. apply Hbit. exact Hn.
  - apply attach_blocks_within;
      [apply producers_keep_attached | apply producers_flag_bits].
Qed.



Lemma attach_blocks_retry att which L : forall ret meta,
  Forall keeps_attached L ->
  Forall (fun fp => is_flag_bit (fst fp)) L ->
  bits_within att (attached meta) ->
  attach_blocks which L ret meta
  = attach_blocks (Z.land which (Z.lnot att)) L ret meta.
Proof.
  induction L as [|[flag P] L IH]; intros ret meta HK HB Hatt; [reflexivity|].
  inversion HK as [|fp1 L1 Hk HK']; subst.
  inversion HB as [|fp2 L2 Hb HB']; subst.
  cbn [fst snd] in *. cbn [attach_blocks].
  destruct (Z.eqb_spec (Z.land (attached meta) flag) 0) as [E1|E1].
  - assert (E : (Z.land (Z.land which (Z.lnot att)) flag =? 0)
                = (Z.land which flag =? 0)).
    { f_equal. apply Z.bits_inj'. intros n Hn.
      rewrite !Z.land_spec, Z.lnot_spec by lia.
      destruct (Z.testbit flag n) eqn:Ef; [|rewrite !andb_false_r; reflexivity].
      pose proof (flag_bit_unattached _ _ Hb E1 n Ef) as Hu.
      destruct (Z.testbit att n) eqn:Ea.
      - rewrite (Hatt n Ea) in Hu. discriminate.
      - cbn [negb]. rewrite andb_true_r. reflexivity. }
    rewrite E. destruct (Z.land which flag =? 0); cbn [negb andb];
      [apply IH; assumption|].
    specialize (Hk meta). cbn [fst snd] in Hk.
    destruct (P meta) as [ret' m']. cbn [snd] in Hk.
    destruct (ret' <? 0); [reflexivity|].
    apply IH; try assumption.
    intros n Hn. cbn [set_attached attached]. rewrite Z.lor_spec, Hk.
    rewrite (Hatt n Hn). reflexivity.
  - rewrite !andb_false_r. apply IH; assumption.
Qed.

(** A call runs only for what is requested and not yet attached: asking
    for a mask gives the same result as asking for the mask without the
    categories the snapshot already has.  This is how a retry after an
    error skips what had succeeded. *)
Theorem append_retry_skips meta conn which w :
  kdbus_meta_append meta conn which w
  = kdbus_meta_append meta conn (Z.land which (Z.lnot (attached meta))) w.
Proof.
  unfold kdbus_meta_append. destruct conn as [c|]; [|reflexivity].
  set (which' := Z.land which (Z.lnot (attached meta))).
  assert (E0 : Z.land which' (attached meta) = 0).
  { unfold which'. rewrite <- Z.land_assoc, (Z.land_comm (Z.lnot _)).
    rewrite Z.land_lnot_diag, Z.land_0_r. reflexivity. }
  rewrite E0.
  assert (Hsplit : which = Z.lor (Z.land which (attached meta)) which').
  { unfold which'. rewrite <- Z.land_lor_distr_r.
    rewrite Z.lor_lnot_diag, Z.land_m1_r. reflexivity. }
  destruct (Z.eqb_spec (Z.land which (attached meta)) which) as [E|E].
  - assert (Ew : which' = 0).
    { unfold which'. rewrite <- E at 1.
      rewrite <- Z.land_assoc, Z.land_lnot_diag, Z.land_0_r. reflexivity. }
    rewrite Ew. reflexivity.
  - destruct (Z.eqb_spec 0 which') as [Ew|Ew].
    + exfalso. apply E. rewrite Hsplit at 2. rewrite <- Ew, Z.lor_0_r.
      reflexivity.
    + apply attach_blocks_retry;
        [apply producers_keep_attached | apply producers_flag_bits |].
      intros n Hn. exact Hn.
Qed.

End Mask.

(** * What a call that does not fail has attached *)

Section Marks.

Context {K : kdbus_h}.

Lemma append_marks meta c which w fp :
  ~ fst (kdbus_meta_append meta (Some c) which w) < 0 ->
  In fp (producers w (Some c)) -> Z.land which (fst fp) <> 0 ->
  is_attached (snd (kdbus_meta_append meta (Some c) which w)) (fst fp).
Proof.
  unfold kdbus_meta_append.
  destruct (Z.eqb_spec (Z.land which (attached meta)) which) as [E|E].
  - intros _ _ Hw. cbn [snd]. unfold is_attached. intros H0.
    apply Hw. rewrite <- E, <- Z.land_assoc, H0. apply Z.land_0_r.
  - intros Hret Hin Hw.
    apply attach_blocks_marks; try assumption.
    apply producers_keep_attached.
Qed.

(** For a connection that owns no name, a call that asks for CREDS and
    NAMES and does not fail leaves both attached: the snapshot has a CREDS
    item, the call has written no NAMES item, and the NAMES bit is set all
    the same. *)
Theorem names_attached_without_item calls c which w :
  Forall call_sane calls -> world_sane w -> names_list c = [] ->
  Z.land which KDBUS_ATTACH_CREDS <> 0 ->
  Z.land which KDBUS_ATTACH_NAMES <> 0 ->
  let meta := kdbus_meta_appends kdbus_meta_zero calls in
  let r := kdbus_meta_append meta (Some c) which w in
  ~ fst r < 0 ->
  is_attached (snd r) KDBUS_ATTACH_NAMES
  /\ is_attached (snd r) KDBUS_ATTACH_CREDS
  /\ exists old new,
       meta_items (length old) meta = Some old
       /\ meta_items (length (old ++ new)) (snd r) = Some (old ++ new)
       /\ Exists (has_type KDBUS_ITEM_CREDS) (old ++ new)
       /\ Forall (fun it => item_type it <> KDBUS_ITEM_NAMES) new.
Proof.
  intros HF Hw Hn Hc Hnm meta r Hret.
  assert (Hnames : is_attached (snd r) KDBUS_ATTACH_NAMES).
  { apply (append_marks meta c which w
             (KDBUS_ATTACH_NAMES,
              fun m => kdbus_meta_append_src_names w m (Some c)));
      [exact Hret | | exact Hnm].
    unfold producers. apply in_or_app. left. cbn. tauto. }
  assert (Hcreds : is_attached (snd r) KDBUS_ATTACH_CREDS).
  { apply (append_marks meta c which w
             (KDBUS_ATTACH_CREDS, kdbus_meta_append_cred w));
      [exact Hret | | exact Hc].
    unfold producers. apply in_or_app. left. cbn. tauto. }
  split; [exact Hnames|]. split; [exact Hcreds|].
  assert (Hcs : conn_sane (Some c)).
  { cbn. rewrite Hn. cbn. unfold NAMES_LIMIT. lia. }
  destruct (appends_snapshot calls kdbus_meta_zero [] HF zero_snapshot_ok)
    as (old & Hs).
  cbn [app] in Hs. fold meta in Hs.
  destruct (append_snapshot meta (Some c) which w old Hw Hcs Hs)
    as (new & Hs' & Hty).
  fold r in Hs'.
  exists old, new.
  split; [apply blob_ok_readable; apply Hs|].
  split; [apply blob_ok_readable; apply Hs'|].
  split; [apply Hs'; exact Hcreds|].
  eapply Forall_impl; [|exact Hty].
  intros it Hin E. cbv beta in Hin. rewrite E in Hin.
  exact (names_type_not_written (Some c) Hn Hin).
Qed.




End Marks.

Lemma append_idempotent_witness :
  (Some named_conn = None -> Some nameless_conn = None)
  /\ ~ fst (kdbus_meta_append (K := sample_kdbus_h) kdbus_meta_zero
              (Some named_conn) 1023 sample_world) < 0
  /\ kdbus_meta_append (K := sample_kdbus_h)
       (snd (kdbus_meta_append (K := sample_kdbus_h) kdbus_meta_zero
               (Some named_conn) 1023 sample_world))
       (Some nameless_conn) 1023 no_memory_world
     = (0, snd (kdbus_meta_append (K := sample_kdbus_h) kdbus_meta_zero
                  (Some named_conn) 1023 sample_world)).
Proof.
  assert (H1 : Some named_conn = None -> Some nameless_conn = None)
    by discriminate.
  assert (H2 : ~ fst (kdbus_meta_append (K := sample_kdbus_h) kdbus_meta_zero
                        (Some named_conn) 1023 sample_world) < 0).
  { vm_compute. discriminate. }
  split; [exact H1|]. split; [exact H2|].
  exact (append_idempotent (K := sample_kdbus_h) kdbus_meta_zero
           (Some named_conn) (Some nameless_conn) 1023
           sample_world no_memory_world H1 H2).
Defined.


Lemma names_attached_without_item_witness :
  Forall call_sane [sample_call] /\ world_sane sample_world
  /\ names_list nameless_conn = []
  /\ is_attached
       (snd (kdbus_meta_append (K := sample_kdbus_h)
               (kdbus_meta_appends (K := sample_kdbus_h) kdbus_meta_zero [])
               (Some nameless_conn) 6 sample_world))
       (KDBUS_ATTACH_NAMES (kdbus_h := sample_kdbus_h)).
Proof.
  split; [constructor; [apply sample_call_sane | constructor]|].
  split; [apply sample_world_sane|]. split; [reflexivity|].
  refine (proj1 (names_attached_without_item (K := sample_kdbus_h) []
                   nameless_conn 6 sample_world (Forall_nil _)
                   sample_world_sane eq_refl _ _ _)).
  - vm_compute. discriminate.
  - vm_compute. discriminate.
  - vm_compute. discriminate.
Defined.


(** * Sizes, capacity and reallocation *)

Lemma zero_sizes_ok : sizes_ok kdbus_meta_zero.
Proof.
  unfold sizes_ok. cbn [kdbus_meta_zero size data].
  split; [lia|]. split; reflexivity.
Qed.

(** [KDBUS_ALIGN8] rounds up to the next multiple of 8 and is idempotent, as
    long as the sum does not leave 64 bits; for the seven largest [u64]
    values it wraps around to 0. *)
Theorem KDBUS_ALIGN8_rounds_up l :
  0 <= l < 2 ^ 64 ->
  (l + 7 < 2 ^ 64 ->
   KDBUS_ALIGN8 l mod 8 = 0
   /\ l <= KDBUS_ALIGN8 l < l + 8
   /\ KDBUS_ALIGN8 (KDBUS_ALIGN8 l) = KDBUS_ALIGN8 l)
  /\ (2 ^ 64 <= l + 7 -> KDBUS_ALIGN8 l = 0).
Proof.
  intros Hl. split.
  - intros Hfit.
    pose proof (KDBUS_ALIGN8_bounds l ltac:(lia) Hfit) as Hb.
    pose proof (KDBUS_ALIGN8_mod8 l) as Hm.
    split; [exact Hm|]. split; [exact Hb|].
    apply KDBUS_ALIGN8_aligned; [lia | exact Hm].
  - intros Hwrap. unfold KDBUS_ALIGN8.
    assert (E : wrap64 (l + 7) = l + 7 - 2 ^ 64).
    { unfold wrap64. symmetry. apply (Z.mod_unique_pos _ _ 1); lia. }
    rewrite land_high_mask by apply wrap64_range.
    rewrite E. rewrite Z.div_small by lia. reflexivity.
Qed.

Lemma KDBUS_ALIGN8_rounds_up_witness :
  0 <= 21 < 2 ^ 64 /\ 21 + 7 < 2 ^ 64 /\ KDBUS_ALIGN8 21 mod 8 = 0.
Proof.
  assert (H : 0 <= 21 < 2 ^ 64) by lia.
  assert (H' : 21 + 7 < 2 ^ 64) by lia.
  split; [exact H|]. split; [exact H'|].
  exact (proj1 (proj1 (KDBUS_ALIGN8_rounds_up 21 H) H')).
Defined.

(** One call of [kdbus_meta_append_item] on a consistent snapshot, within
    the limits.  A failure is [-ENOMEM] and changes nothing.  A success
    returns the old logical size as the item and adds the rounded-up size;
    the first allocation is all zeros and its capacity the smallest power
    of two at or above 256 plus the rounded-up size; later the buffer is
    left alone while the item fits, and else replaced by one whose capacity
    is the smallest power of two at or above the size needed, at least twice
    the old one, that keeps the bytes below the old logical size and is zero
    from the old capacity on.  The result is consistent again. *)
Theorem buffer_growth a meta extra_size :
  allocator_sane a -> sizes_ok meta -> 0 <= extra_size <= 2 ^ 33 ->
  let r := kdbus_meta_append_item a meta extra_size in
  let n := KDBUS_ALIGN8 extra_size in
  sizes_ok (snd r)
  /\ match fst r with
     | ERR_PTR err => err = - ENOMEM /\ snd r = meta
     | Item item =>
         item = size meta /\ size (snd r) = size meta + n
         /\ match data meta with
            | None =>
                smallest_pow2_ge (256 + n) (allocated_size (snd r))
                /\ data (snd r) = Some (zeros (allocated_size (snd r)))
            | Some d =>
                if allocated_size meta <? size meta + n then
                  smallest_pow2_ge (size meta + n) (allocated_size (snd r))
                  /\ 2 * allocated_size meta <= allocated_size (snd r)
                  /\ exists d', data (snd r) = Some d'
                       /\ mem_read d' 0 (size meta) = mem_read d 0 (size meta)
                       /\ mem_read d' (allocated_size meta)
                            (allocated_size (snd r) - allocated_size meta)
                          = zeros (allocated_size (snd r) - allocated_size meta)
                else data (snd r) = Some d
                     /\ allocated_size (snd r) = allocated_size meta
            end
     end.
Proof. exact (append_item_growth a meta extra_size). Qed.

Lemma buffer_growth_witness :
  allocator_sane sample_allocator /\ sizes_ok kdbus_meta_zero
  /\ 0 <= 300 <= 2 ^ 33
  /\ sizes_ok (snd (kdbus_meta_append_item sample_allocator kdbus_meta_zero 300)).
Proof.
  assert (H : 0 <= 300 <= 2 ^ 33) by lia.
  split; [apply sample_allocator_sane|]. split; [apply zero_sizes_ok|].
  split; [exact H|].
  exact (proj1 (buffer_growth sample_allocator kdbus_meta_zero 300
                  sample_allocator_sane zero_sizes_ok H)).
Defined.

(** [N] item appends in a row to a fresh snapshot, each of rounded-up size
    at most [B], reallocate at most [log2 (2 + N * B / 128)] times: every
    reallocation doubles a capacity that starts at 256 or more and stays
    below twice what is needed. *)
Theorem reallocations_logarithmic B L :
  Forall (step_ok B) L -> 0 <= B ->
  let c := Z.of_nat (snd (append_items kdbus_meta_zero L)) in
  let N := Z.of_nat (length L) in
  2 ^ c * 128 < 256 + B * N
  /\ c <= Z.log2 (2 + B * N / 128).
Proof.
  intros HL HB c N.
  assert (Hc0 : 0 <= c) by (unfold c; lia).
  assert (HN0 : 0 <= N) by (unfold N; lia).
  assert (Hp : 0 < 2 ^ c) by (apply Z.pow_pos_nonneg; lia).
  assert (H1 : 2 ^ c * 128 < 256 + B * N).
  { pose proof (append_items_none B L kdbus_meta_zero HL zero_sizes_ok
                  eq_refl HB) as H.
    cbv zeta in H. fold c N in H.
    destruct H as [[_ E]|(_ & Hlo & Hhi)].
    - unfold c. rewrite E. cbn [Z.of_nat]. rewrite Z.pow_0_r. nia.
    - fold c in Hlo. lia. }
  split; [exact H1|].
  pose proof (Z.div_mod (B * N) 128 ltac:(lia)) as Hdm.
  pose proof (Z.mod_pos_bound (B * N) 128 ltac:(lia)) as Hmb.
  assert (H2 : 2 ^ c <= 2 + B * N / 128) by lia.
  rewrite <- (Z.log2_pow2 c Hc0).
  apply Z.log2_le_mono. exact H2.
Qed.

Lemma sample_items_ok : Forall (step_ok 200) sample_items.
Proof.
  repeat (apply Forall_cons;
          [split; [apply sample_allocator_sane|];
           split; cbn [snd]; [lia | vm_compute; discriminate]|]).
  apply Forall_nil.
Qed.

Lemma reallocations_logarithmic_witness :
  Forall (step_ok 200) sample_items /\ 0 <= 200
  /\ Z.of_nat (snd (append_items kdbus_meta_zero sample_items))
     <= Z.log2 (2 + 200 * Z.of_nat (length sample_items) / 128).
Proof.
  assert (H : 0 <= 200) by lia.
  split; [apply sample_items_ok|]. split; [exact H|].
  exact (proj2 (reallocations_logarithmic 200 sample_items sample_items_ok H)).
Defined.

(** * More on the endpoint checks *)

Section EndpointMoreProofs.

Variable kdbus_policy_db : Type.
Variable see : kdbus_policy_db -> cred -> cstring -> Z.
Variable talk : kdbus_policy_db -> kdbus_conn -> kdbus_conn -> Z.
Variable own : kdbus_policy_db -> cred -> cstring -> Z.
Variable KDBUS_SRC_ID_KERNEL : Z.
Variable KDBUS_ITEM_NAME_ADD : Z.
Variable KDBUS_ITEM_NAME_REMOVE : Z.
Variable KDBUS_ITEM_NAME_CHANGE : Z.

Local Notation "'see_unlocked'" :=
  (kdbus_ep_policy_check_see_access_unlocked _ see).
Local Notation "'src_names'" := (kdbus_ep_policy_check_src_names _ see).
Local Notation "'talk_access'" := (kdbus_ep_policy_check_talk_access _ talk).
Local Notation "'own_access'" := (kdbus_ep_policy_check_own_access _ own).
Local Notation "'notification'" :=
  (kdbus_ep_policy_check_notification _ see KDBUS_SRC_ID_KERNEL
     KDBUS_ITEM_NAME_ADD KDBUS_ITEM_NAME_REMOVE KDBUS_ITEM_NAME_CHANGE).

Lemma see_unlocked_not_eperm (ep : kdbus_ep kdbus_policy_db) conn nm :
  see_unlocked ep conn nm <> - EPERM.
Proof.
  unfold kdbus_ep_policy_check_see_access_unlocked.
  destruct (has_policy ep); cbn [negb]; [|unfold EPERM; lia].
  destruct (Z.eqb_spec (see (policy_db ep) (conn_cred conn) nm) (- EPERM));
    [unfold ENOENT, EPERM; lia | assumption].
Qed.

Lemma src_names_loop_zero (ep : kdbus_ep kdbus_policy_db) dst l : forall ret,
  ret <> 0 ->
  (src_names_loop _ see ep dst l ret = 0
   <-> exists e, In e l /\ see_unlocked ep dst (name e) = 0).
Proof.
  induction l as [|e l IH]; intros ret Hret; cbn [src_names_loop].
  - split; [intros; contradiction | intros (e & [] & _)].
  - cbv zeta.
    destruct (Z.eqb_spec (see_unlocked ep dst (name e)) 0) as [E|E].
    + split; [intros _; exists e; split; [left; reflexivity | exact E]
             | intros _; exact E].
    + rewrite (IH _ E). split.
      * intros (e' & Hin & He'). exists e'. split; [right; exact Hin | exact He'].
      * intros (e' & [<-|Hin] & He'); [contradiction|].
        exists e'. split; assumption.
Qed.

Lemma src_names_loop_not_eperm (ep : kdbus_ep kdbus_policy_db) dst l :
  forall ret, ret <> - EPERM ->
  src_names_loop _ see ep dst l ret <> - EPERM.
Proof.
  induction l as [|e l IH]; intros ret Hret; cbn [src_names_loop];
    [exact Hret|].
  cbv zeta. destruct (_ =? 0); [|apply IH]; apply see_unlocked_not_eperm.
Qed.

(** Through a custom endpoint [check_src_names] succeeds exactly when the
    destination may see at least one of the names the source owns; on no
    endpoint does it answer [-EPERM]. *)
Theorem src_names_allowed_iff (ep : kdbus_ep kdbus_policy_db) src dst :
  has_policy ep = true ->
  (src_names ep src dst = 0
   <-> exists e, In e (names_list src)
         /\ see_unlocked ep dst (name e) = 0)
  /\ src_names ep src dst <> - EPERM.
Proof.
  intros Hp. unfold kdbus_ep_policy_check_src_names. rewrite Hp.
  cbn [negb]. cbv zeta. split.
  - apply src_names_loop_zero. unfold ENOENT. lia.
  - apply src_names_loop_not_eperm. unfold ENOENT, EPERM. lia.
Qed.

(** [check_talk_access] allows exactly when the endpoint's own policy, if
    it has one, does not refuse, and the source is privileged, or its fsuid
    is the uid of the destination, or the bus-wide database allows. *)
Theorem talk_allowed_iff (ep : kdbus_ep kdbus_policy_db) src dst :
  talk_access ep src dst = 0
  <-> (has_policy ep = false \/ 0 <= talk (policy_db ep) src dst)
      /\ (privileged src = true
          \/ fsuid (conn_cred src) = uid (conn_cred dst)
          \/ talk (bus_policy_db (bus ep)) src dst = 0).
Proof.
  unfold kdbus_ep_policy_check_talk_access, uid_eq. cbv zeta.
  set (fallback := if privileged src then 0
                   else if fsuid (conn_cred src) =? uid (conn_cred dst) then 0
                   else talk (bus_policy_db (bus ep)) src dst).
  assert (Hf : fallback = 0
               <-> privileged src = true
                   \/ fsuid (conn_cred src) = uid (conn_cred dst)
                   \/ talk (bus_policy_db (bus ep)) src dst = 0).
  { unfold fallback. destruct (privileged src); [tauto|].
    destruct (Z.eqb_spec (fsuid (conn_cred src)) (uid (conn_cred dst)));
      [tauto|].
    split; [tauto|]. intros [H|[H|H]]; [discriminate | contradiction | exact H]. }
  destruct (has_policy ep).
  - destruct (Z.eqb_spec (talk (policy_db ep) src dst) (- EPERM)) as [E|E].
    + rewrite E. change (- ENOENT <? 0) with true. cbv iota.
      split; [unfold ENOENT; lia|].
      intros [[H|H] _]; [discriminate | unfold EPERM in H; lia].
    + destruct (Z.ltb_spec (talk (policy_db ep) src dst) 0) as [Hn|Hn].
      * split; [lia|]. intros [[H|H] _]; [discriminate | lia].
      * rewrite Hf. split; [intros H; split; [right; exact Hn | exact H]|].
        intros [_ H]. exact H.
  - rewrite Hf. split; [intros H; split; [left; reflexivity | exact H]|].
    intros [_ H]. exact H.
Qed.

(** [check_talk_access] answers [-EPERM] only when the bus-wide database
    said so to a source that is not privileged and whose fsuid is not the
    uid of the destination; the endpoint's own policy never causes it. *)
Theorem talk_eperm_only_from_bus (ep : kdbus_ep kdbus_policy_db) src dst :
  talk_access ep src dst = - EPERM ->
  privileged src = false
  /\ fsuid (conn_cred src) <> uid (conn_cred dst)
  /\ talk (bus_policy_db (bus ep)) src dst = - EPERM
  /\ (has_policy ep = true -> 0 <= talk (policy_db ep) src dst).
Proof.
  unfold kdbus_ep_policy_check_talk_access, uid_eq. cbv zeta.
  set (fallback := if privileged src then 0
                   else if fsuid (conn_cred src) =? uid (conn_cred dst) then 0
                   else talk (bus_policy_db (bus ep)) src dst).
  assert (Hf : fallback = - EPERM ->
               privileged src = false
               /\ fsuid (conn_cred src) <> uid (conn_cred dst)
               /\ talk (bus_policy_db (bus ep)) src dst = - EPERM).
  { unfold fallback. destruct (privileged src); [unfold EPERM; lia|].
    destruct (Z.eqb_spec (fsuid (conn_cred src)) (uid (conn_cred dst)));
      [unfold EPERM; lia|].
    intros H. split; [reflexivity|]. split; assumption. }
  destruct (has_policy ep).
  - destruct (Z.eqb_spec (talk (policy_db ep) src dst) (- EPERM)) as [E|E].
    + change (- ENOENT <? 0) with true. cbv iota.
      unfold ENOENT, EPERM. lia.
    + destruct (Z.ltb_spec (talk (policy_db ep) src dst) 0) as [Hn|Hn].
      * intros H. contradiction.
      * intros H. destruct (Hf H) as (H1 & H2 & H3).
        split; [exact H1|]. split; [exact H2|]. split; [exact H3|].
        intros _. exact Hn.
  - intros H. destruct (Hf H) as (H1 & H2 & H3).
    split; [exact H1|]. split; [exact H2|]. split; [exact H3|].
    intros H4. discriminate.
Qed.

(** [check_own_access] allows exactly when the endpoint's own policy, if it
    has one, does not refuse, and the connection is privileged or the
    bus-wide database allows. *)
Theorem own_allowed_iff (ep : kdbus_ep kdbus_policy_db) conn nm :
  own_access ep conn nm = 0
  <-> (has_policy ep = false \/ 0 <= own (policy_db ep) (conn_cred conn) nm)
      /\ (privileged conn = true
          \/ own (bus_policy_db (bus ep)) (conn_cred conn) nm = 0).
Proof.
  unfold kdbus_ep_policy_check_own_access. cbv zeta.
  set (fallback := if privileged conn then 0
                   else own (bus_policy_db (bus ep)) (conn_cred conn) nm).
  assert (Hf : fallback = 0
               <-> privileged conn = true
                   \/ own (bus_policy_db (bus ep)) (conn_cred conn) nm = 0).
  { unfold fallback. destruct (privileged conn); [tauto|].
    split; [tauto|]. intros [H|H]; [discriminate | exact H]. }
  destruct (has_policy ep).
  - destruct (Z.ltb_spec (own (policy_db ep) (conn_cred conn) nm) 0) as [Hn|Hn].
    + split; [lia|]. intros [[H|H] _]; [discriminate | lia].
    + rewrite Hf. split; [intros H; split; [right; exact Hn | exact H]|].
      intros [_ H]. exact H.
  - rewrite Hf. split; [intros H; split; [left; reflexivity | exact H]|].
    intros [_ H]. exact H.
Qed.

(** [check_notification] lets a message through exactly when the endpoint
    is a default one, or the message does not come from the kernel, or it
    is a name add, remove or change whose name the connection may see; it
    never answers [-EPERM]. *)
Theorem notification_allowed_iff (ep : kdbus_ep kdbus_policy_db) conn kmsg :
  (notification ep conn kmsg = 0
   <-> has_policy ep = false
       \/ msg_src_id kmsg <> KDBUS_SRC_ID_KERNEL
       \/ ((notify_type kmsg = KDBUS_ITEM_NAME_ADD
            \/ notify_type kmsg = KDBUS_ITEM_NAME_REMOVE
            \/ notify_type kmsg = KDBUS_ITEM_NAME_CHANGE)
           /\ see_unlocked ep conn (notify_name kmsg) = 0))
  /\ notification ep conn kmsg <> - EPERM.
Proof.
  unfold kdbus_ep_policy_check_notification,
    kdbus_ep_policy_check_see_access. cbv zeta.
  destruct (has_policy ep) eqn:Hp; cbn [negb];
    [|split; [tauto | unfold EPERM; lia]].
  destruct (Z.eqb_spec (msg_src_id kmsg) KDBUS_SRC_ID_KERNEL) as [Ek|Ek];
    cbn [negb]; [|split; [tauto | unfold EPERM; lia]].
  destruct (Z.eqb_spec (notify_type kmsg) KDBUS_ITEM_NAME_ADD) as [Ea|Ea];
    destruct (Z.eqb_spec (notify_type kmsg) KDBUS_ITEM_NAME_REMOVE) as [Er|Er];
    destruct (Z.eqb_spec (notify_type kmsg) KDBUS_ITEM_NAME_CHANGE) as [Ec|Ec];
    cbn [orb];
    try (split; [|apply see_unlocked_not_eperm];
         split; [intros H; right; right; split; [tauto | exact H]|];
         intros [H|[H|[_ H]]];
         [discriminate | contradiction | exact H]).
  split; [|unfold ENOENT, EPERM; lia].
  split; [unfold ENOENT; lia|].
  intros [H|[H|[[H|[H|H]] _]]];
    [discriminate | contradiction | contradiction | contradiction
     | contradiction].
Qed.

End EndpointMoreProofs.

Section EndpointNewProofs.

Variable kdbus_policy_db : Type.
Variable KDBUS_MAKE_ACCESS_GROUP : Z.
Variable KDBUS_MAKE_ACCESS_WORLD : Z.
Variable kdbus_domain_user : Type.
Variable kdbus_policy_db_init : kdbus_policy_db.

Local Notation "'mode_of'" :=
  (ep_node_mode KDBUS_MAKE_ACCESS_GROUP KDBUS_MAKE_ACCESS_WORLD).
Local Notation "'ep_new'" :=
  (kdbus_ep_new kdbus_policy_db KDBUS_MAKE_ACCESS_GROUP
     KDBUS_MAKE_ACCESS_WORLD kdbus_domain_user kdbus_policy_db_init).

(** The mode of a new endpoint is 0600, 0660 or 0666: the owner can always
    read and write, and whoever asks for world access gets group access
    with it; it is 0666 exactly when a world access flag is set. *)
Theorem ep_mode_nested access :
  let mode :=
    ep_node_mode KDBUS_MAKE_ACCESS_GROUP KDBUS_MAKE_ACCESS_WORLD access in
  (mode = 384 \/ mode = 432 \/ mode = 438)
  /\ (mode = 438 <-> Z.land access KDBUS_MAKE_ACCESS_WORLD <> 0).
Proof.
  unfold ep_node_mode. cbv zeta.
  destruct (Z.eqb_spec (Z.land access KDBUS_MAKE_ACCESS_WORLD) 0) as [Ew|Ew];
    cbn [negb].
  - destruct (_ =? 0); cbn [negb].
    + split; [left; reflexivity|]. split; [discriminate | contradiction].
    + split; [right; left; reflexivity|].
      split; [discriminate | contradiction].
  - assert (Eg : Z.land access
                   (Z.lor KDBUS_MAKE_ACCESS_GROUP KDBUS_MAKE_ACCESS_WORLD)
                 <> 0).
    { rewrite Z.land_lor_distr_r. intros H.
      apply Z.lor_eq_0_iff in H. tauto. }
    destruct (Z.eqb_spec (Z.land access
                (Z.lor KDBUS_MAKE_ACCESS_GROUP KDBUS_MAKE_ACCESS_WORLD)) 0);
      [contradiction|]. cbn [negb].
    split; [right; right; reflexivity|].
    split; [intros _; exact Ew | reflexivity].
Qed.

(** An endpoint that [kdbus_ep_new] returns has the id after the bus's
    counter, which the counter then holds; it is custom exactly when asked,
    and has an accounting user of its own exactly when custom.  A failure
    before the endpoint is allocated leaves the counter alone; a later one
    has used up an id. *)
Theorem ep_new_result env (b : kdbus_bus kdbus_policy_db)
    seq access uid gid is_custom :
  match ep_new env b seq access uid gid is_custom with
  | (Ep e, seq') =>
      ep_id e = wrap64 (seq + 1) /\ seq' = ep_id e
      /\ has_policy (ep_policy e) = is_custom
      /\ bus (ep_policy e) = b
      /\ (ep_user e <> None <-> is_custom = true)
      /\ node_uid (ep_node e) = uid /\ node_gid (ep_node e) = gid
      /\ node_mode (ep_node e) = mode_of access
      /\ ep_kzalloc_ok env = true /\ 0 <= node_link env
      /\ (is_custom = true -> 0 <= verify_uid_prefix env)
  | (EP_ERR_PTR err, seq') =>
      (seq' = seq
       /\ ((is_custom = true /\ err = verify_uid_prefix env /\ err < 0)
           \/ (ep_kzalloc_ok env = false /\ err = - ENOMEM)))
      \/ (seq' = wrap64 (seq + 1) /\ ep_kzalloc_ok env = true
          /\ (err = node_link env /\ err < 0
              \/ (is_custom = true /\ domain_get_user env = inl err)))
  end.
Proof.
  unfold kdbus_ep_new.
  destruct is_custom; cbn [andb].
  - destruct (Z.ltb_spec (verify_uid_prefix env) 0) as [Hv|Hv].
    + left. split; [reflexivity|]. left. repeat split; assumption.
    + destruct (ep_kzalloc_ok env) eqn:Ek; cbn [negb].
      * cbv zeta.
        destruct (Z.ltb_spec (node_link env) 0) as [Hl|Hl].
        -- right. split; [reflexivity|]. split; [reflexivity|].
           left. split; [reflexivity | exact Hl].
        -- destruct (domain_get_user env) as [err|user] eqn:Eu.
           ++ right. split; [reflexivity|]. split; [reflexivity|].
              right. split; reflexivity.
           ++ cbn [ep_id ep_policy has_policy bus ep_user ep_node
                   node_uid node_gid node_mode].
              split; [reflexivity|]. split; [reflexivity|].
              split; [reflexivity|]. split; [reflexivity|].
              split; [split; [reflexivity | discriminate]|].
              split; [reflexivity|]. split; [reflexivity|].
              split; [reflexivity|]. split; [reflexivity|].
              split; [exact Hl|]. intros _. exact Hv.
      * left. split; [reflexivity|]. right. split; reflexivity.
  - destruct (ep_kzalloc_ok env) eqn:Ek; cbn [negb].
    + cbv zeta.
      destruct (Z.ltb_spec (node_link env) 0) as [Hl|Hl].
      * right. split; [reflexivity|]. split; [reflexivity|].
        left. split; [reflexivity | exact Hl].
      * cbn [ep_id ep_policy has_policy bus ep_user ep_node
             node_uid node_gid node_mode].
        split; [reflexivity|]. split; [reflexivity|].
        split; [reflexivity|]. split; [reflexivity|].
        split; [split; [intros H; contradiction | discriminate]|].
        split; [reflexivity|]. split; [reflexivity|].
        split; [reflexivity|]. split; [reflexivity|].
        split; [exact Hl|]. discriminate.
    + left. split; [reflexivity|]. right. split; reflexivity.
Qed.

End EndpointNewProofs.

Lemma src_names_allowed_iff_witness :
  has_policy allowing_ep = true
  /\ kdbus_ep_policy_check_src_names _ sample_check_name
       allowing_ep other_conn privileged_conn = 0.
Proof.
  split; [reflexivity|].
  apply (proj1 (src_names_allowed_iff sample_db sample_check_name
                  allowing_ep other_conn privileged_conn eq_refl)).
  exists {| name := [Byte.x64] |}. split; [left; reflexivity | reflexivity].
Defined.

Lemma talk_eperm_only_from_bus_witness :
  kdbus_ep_policy_check_talk_access _ sample_check_talk
    allowing_ep other_conn privileged_conn = - EPERM
  /\ sample_check_talk (bus_policy_db (bus allowing_ep))
       other_conn privileged_conn = - EPERM.
Proof.
  assert (H : kdbus_ep_policy_check_talk_access _ sample_check_talk
                allowing_ep other_conn privileged_conn = - EPERM)
    by reflexivity.
  split; [exact H|].
  exact (proj1 (proj2 (proj2 (talk_eperm_only_from_bus sample_db
                                sample_check_talk allowing_ep other_conn
                                privileged_conn H)))).
Defined.

(** * What the items hold *)

Lemma mem_write_in_range buf off bs :
  0 <= off -> off + Z.of_nat (length bs) <= Z.of_nat (length buf) ->
  mem_write buf off bs
  = firstn (Z.to_nat off) buf ++ bs ++ skipn (Z.to_nat off + length bs) buf.
Proof.
  intros H0 H1. unfold mem_write.
  destruct (Z.leb_spec 0 off); [|lia].
  destruct (Z.leb_spec (off + Z.of_nat (length bs)) (Z.of_nat (length buf)));
    [reflexivity | lia].
Qed.

Lemma mem_write_firstn_through buf off a :
  0 <= off -> off + Z.of_nat (length a) <= Z.of_nat (length buf) ->
  firstn (Z.to_nat (off + Z.of_nat (length a))) (mem_write buf off a)
  = firstn (Z.to_nat off) buf ++ a.
Proof.
  intros H0 H1. rewrite mem_write_in_range by lia. rewrite app_assoc.
  replace (Z.to_nat (off + Z.of_nat (length a)))
    with (length (firstn (Z.to_nat off) buf ++ a) + 0)%nat
    by (rewrite length_app, length_firstn; lia).
  rewrite firstn_app_2, firstn_O, app_nil_r. reflexivity.
Qed.

Lemma mem_write_app buf off a b :
  0 <= off ->
  off + Z.of_nat (length a) + Z.of_nat (length b) <= Z.of_nat (length buf) ->
  mem_write (mem_write buf off a) (off + Z.of_nat (length a)) b
  = mem_write buf off (a ++ b).
Proof.
  intros H0 H1.
  rewrite (mem_write_in_range (mem_write buf off a))
    by (rewrite ?mem_write_length; lia).
  rewrite mem_write_firstn_through by lia.
  replace (Z.to_nat (off + Z.of_nat (length a)) + length b)%nat
    with (Z.to_nat (off + Z.of_nat (length a) + Z.of_nat (length b))) by lia.
  rewrite mem_write_skipn by lia.
  rewrite (mem_write_in_range buf off (a ++ b))
    by (rewrite ?length_app; lia).
  rewrite <- !app_assoc. f_equal. f_equal. f_equal. f_equal.
  rewrite length_app. lia.
Qed.

Lemma mem_write_nil buf off : mem_write buf off [] = buf.
Proof.
  unfold mem_write. destruct (_ && _); [|reflexivity].
  cbn [length app]. rewrite Nat.add_0_r. apply firstn_skipn.
Qed.

Lemma names_concat_length l : Z.of_nat (length (names_concat l)) = names_bytes l.
Proof.
  induction l as [|e l IH]; [reflexivity|].
  change (names_concat (e :: l)) with (str_bytes (name e) ++ names_concat l).
  change (names_bytes (e :: l)) with (strlen (name e) + 1 + names_bytes l).
  rewrite length_app, Nat2Z.inj_add, IH.
  unfold str_bytes, strlen. rewrite length_app. cbn [length]. lia.
Qed.

(** The [strcpy] loop writes the names one after the other. *)
Lemma copy_names_block l : forall m d item pos,
  data m = Some d -> 0 <= item -> 0 <= pos ->
  item + item_data_field + pos + names_bytes l <= Z.of_nat (length d) ->
  pos + names_bytes l < 2 ^ 64 ->
  data (fst (copy_names m item l pos))
  = Some (mem_write d (item + item_data_field + pos) (names_concat l))
  /\ snd (copy_names m item l pos) = pos + names_bytes l.
Proof.
  induction l as [|e l IH]; intros m d item pos Hd Hi Hp Hfit Hw.
  - cbn [copy_names fst snd]. rewrite Hd.
    change (names_concat []) with (@nil byte). rewrite mem_write_nil.
    split; [reflexivity|]. change (names_bytes []) with 0. lia.
  - change (names_bytes (e :: l)) with (strlen (name e) + 1 + names_bytes l)
      in *.
    change (names_concat (e :: l)) with (str_bytes (name e) ++ names_concat l).
    pose proof (names_bytes_nonneg l) as Hn.
    assert (Hs : 0 <= strlen (name e)) by (unfold strlen; lia).
    assert (Hsl : Z.of_nat (length (str_bytes (name e))) = strlen (name e) + 1).
    { unfold str_bytes, strlen. rewrite length_app. cbn [length]. lia. }
    cbn [copy_names]. cbv zeta.
    rewrite (wrap64_small (pos + (strlen (name e) + 1))) by lia.
    unfold item_data_field in *.
    assert (Hd' : data (item_set_data m item pos (str_bytes (name e)))
                  = Some (mem_write d (item + 16 + pos) (str_bytes (name e)))).
    { unfold item_set_data, meta_write, item_data_field. rewrite Hd.
      reflexivity. }
    destruct (IH _ _ item (pos + (strlen (name e) + 1)) Hd' Hi ltac:(lia)
                ltac:(rewrite mem_write_length; lia) ltac:(lia)) as [E1 E2].
    split; [|lia].
    rewrite E1. f_equal.
    replace (item + 16 + (pos + (strlen (name e) + 1)))
      with (item + 16 + pos + Z.of_nat (length (str_bytes (name e)))) by lia.
    apply mem_write_app; [lia|].
    rewrite names_concat_length. lia.
Qed.

Section Payload.

Context {K : kdbus_h}.

Lemma append_data_item a meta ty buf len l :
  allocator_sane a -> blob_ok meta l ->
  0 < len <= 2 ^ 32 -> len <= Z.of_nat (length buf) -> 0 <= ty < 2 ^ 64 ->
  let r := kdbus_meta_append_data a meta ty buf len in
  fst r = 0 ->
  blob_ok (snd r)
    (l ++ [{| item_offset := size meta;
              item_size := KDBUS_PART_HEADER_SIZE + len;
              item_type := ty |}])
  /\ mem_read (block_of (snd r)) (size meta + item_data_field) len
     = mem_read buf 0 len.
Proof.
  intros Ha Hb Hlen Hbuf Hty r. subst r. unfold kdbus_meta_append_data.
  destruct (Z.eqb_spec len 0) as [E|_]; [lia|].
  destruct (KDBUS_ITEM_SIZE_eq len ltac:(lia)) as (Es & Hs & Hal).
  pose proof (append_item_spec a meta (KDBUS_ITEM_SIZE len) l Ha Hb ltac:(lia))
    as Hi.
  destruct (kdbus_meta_append_item a meta (KDBUS_ITEM_SIZE len))
    as [[item|err] m1]; cbv zeta; cbn [fst snd];
    [|destruct Hi as (-> & _); unfold ENOMEM; lia].
  intros _. destruct Hi as (-> & Hatt & Hslot).
  assert (Ew : wrap64 (KDBUS_PART_HEADER_SIZE + len)
               = KDBUS_PART_HEADER_SIZE + len).
  { unfold KDBUS_PART_HEADER_SIZE, item_data_field.
    rewrite wrap64_small; lia. }
  rewrite Ew.
  set (hdr := item_set_size (item_set_type m1 (size meta) ty) (size meta)
                (KDBUS_PART_HEADER_SIZE + len)).
  assert (H0 : 0 <= size meta) by (destruct Hslot as (H0 & _); exact H0).
  assert (Hsb : same_below (size meta + item_data_field) hdr
                  (item_set_data hdr (size meta) 0 (mem_read buf 0 len))).
  { unfold item_set_data. apply meta_write_same_below.
    unfold item_data_field. lia. }
  split.
  - pose proof (item_filled m1 l (size meta) _ ty
                  (KDBUS_PART_HEADER_SIZE + len) _ Hslot Hsb) as Hf.
    rewrite Ew, (wrap64_small ty) in Hf by assumption.
    apply Hf.
    + unfold KDBUS_ITEM_HEADER_SIZE, KDBUS_PART_HEADER_SIZE, item_data_field.
      lia.
    + rewrite Hal, Es. f_equal.
      unfold KDBUS_PART_HEADER_SIZE, item_data_field. lia.
  - destruct Hslot as (_ & _ & Hsize & d1 & Ed1 & Hl1 & Hle & _ & _).
    unfold item_set_data, block_of, meta_write.
    unfold hdr, item_set_size, item_set_type, meta_write.
    rewrite Ed1. cbn [data].
    pose proof (mem_read_length buf 0 len ltac:(lia) ltac:(lia) ltac:(lia))
      as Hbl.
    replace (size meta + item_data_field + 0)
      with (size meta + item_data_field) by lia.
    apply mem_read_back; [symmetry; exact Hbl | unfold item_data_field; lia|].
    rewrite !mem_write_length. unfold item_data_field. lia.
Qed.

(** An item that [kdbus_meta_append_data] has written can be read back: a
    reader finds the old items, then one of the given type whose size is
    the header plus the payload length, and the bytes of its data are the
    payload. *)
Theorem append_data_round_trip calls a ty buf len :
  Forall call_sane calls -> allocator_sane a ->
  0 < len <= 2 ^ 32 -> len <= Z.of_nat (length buf) -> 0 <= ty < 2 ^ 64 ->
  let meta := kdbus_meta_appends kdbus_meta_zero calls in
  let r := kdbus_meta_append_data a meta ty buf len in
  fst r = 0 ->
  exists old,
    meta_items (length old) meta = Some old
    /\ meta_items (S (length old)) (snd r)
       = Some (old ++ [{| item_offset := size meta;
                          item_size := KDBUS_PART_HEADER_SIZE + len;
                          item_type := ty |}])
    /\ mem_read (block_of (snd r)) (size meta + item_data_field) len
       = mem_read buf 0 len.
Proof.
  intros HF Ha Hlen Hbuf Hty meta r Hret.
  destruct (appends_snapshot calls kdbus_meta_zero [] HF zero_snapshot_ok)
    as (old & Hs & _).
  cbn [app] in Hs. fold meta in Hs.
  destruct (append_data_item a meta ty buf len old Ha Hs Hlen Hbuf Hty Hret)
    as [Hb Hp].
  exists old. split; [apply blob_ok_readable; exact Hs|].
  split; [|exact Hp].
  destruct (blob_ok_readable _ _ Hb) as [Hr _].
  rewrite length_app in Hr. cbn [length] in Hr.
  rewrite Nat.add_1_r in Hr. exact Hr.
Qed.

(** For a connection that owns names, a NAMES producer that succeeds leaves
    one more item, of type NAMES and of size the header plus the length of
    all names with their terminators; its data are the names one after the
    other, and [src_names] and [src_names_len] describe exactly them. *)
Theorem src_names_round_trip calls w c :
  Forall call_sane calls -> world_sane w -> conn_sane (Some c) ->
  names_list c <> [] ->
  let meta := kdbus_meta_appends kdbus_meta_zero calls in
  let r := kdbus_meta_append_src_names w meta (Some c) in
  let n := names_bytes (names_list c) in
  fst r = 0 ->
  src_names (snd r) = Some (size meta + item_data_field)
  /\ src_names_len (snd r) = n
  /\ mem_read (block_of (snd r)) (size meta + item_data_field) n
     = names_concat (names_list c)
  /\ exists old,
       meta_items (length old) meta = Some old
       /\ meta_items (S (length old)) (snd r)
          = Some (old ++ [{| item_offset := size meta;
                             item_size := KDBUS_PART_HEADER_SIZE + n;
                             item_type := KDBUS_ITEM_NAMES |}]).
Proof.
  intros HF Hw Hc Hne meta r n Hret.
  destruct (appends_snapshot calls kdbus_meta_zero [] HF zero_snapshot_ok)
    as (old & Hs & _).
  cbn [app] in Hs. fold meta in Hs.
  assert (Hty : 0 <= KDBUS_ITEM_NAMES < 2 ^ 64).
  { apply item_type_in_range. unfold item_types. cbn. tauto. }
  subst r. unfold kdbus_meta_append_src_names in *.
  cbn [conn_sane] in Hc. unfold NAMES_LIMIT in Hc. fold n in Hc.
  rewrite names_strsize_eq in * by (fold n; lia). fold n in Hret |- *.
  assert (Hn : 1 <= n).
  { unfold n. destruct (names_list c) as [|e names]; [contradiction|].
    change (names_bytes (e :: names))
      with (strlen (name e) + 1 + names_bytes names).
    pose proof (names_bytes_nonneg names). unfold strlen. lia. }
  destruct (Z.eqb_spec n 0) as [E|_]; [lia|].
  destruct (KDBUS_ITEM_SIZE_eq n ltac:(lia)) as (Es & Hsz & Hal).
  pose proof (append_item_spec (alloc_at w at_src_names) meta
                (KDBUS_ITEM_SIZE n) old (Hw at_src_names) Hs ltac:(lia)) as Hi.
  destruct (kdbus_meta_append_item (alloc_at w at_src_names) meta
              (KDBUS_ITEM_SIZE n)) as [[item|err] m1];
    [|destruct Hi as (-> & _); cbn [fst] in Hret; unfold ENOMEM in Hret; lia].
  destruct Hi as (-> & Hatt & Hslot). cbv zeta in Hret |- *.
  assert (H0 : 0 <= size meta) by (destruct Hslot as (H0 & _); exact H0).
  assert (Ew : wrap64 (KDBUS_PART_HEADER_SIZE + n)
               = KDBUS_PART_HEADER_SIZE + n).
  { unfold KDBUS_PART_HEADER_SIZE, item_data_field.
    rewrite wrap64_small; lia. }
  rewrite Ew in *.
  set (hdr := item_set_size (item_set_type m1 (size meta) KDBUS_ITEM_NAMES)
                (size meta) (KDBUS_PART_HEADER_SIZE + n)) in *.
  pose proof Hslot as (_ & _ & Hsize & d1 & Ed1 & Hl1 & Hle & _ & _).
  set (dh := mem_write (mem_write d1 (size meta + item_type_field)
                          (u64_bytes KDBUS_ITEM_NAMES))
               (size meta + item_size_field)
               (u64_bytes (KDBUS_PART_HEADER_SIZE + n))).
  assert (Edh : data hdr = Some dh).
  { unfold hdr, item_set_size, item_set_type, meta_write. rewrite Ed1.
    reflexivity. }
  assert (Ldh : length dh = length d1).
  { unfold dh. rewrite !mem_write_length. reflexivity. }
  pose proof (copy_names_block (names_list c) hdr dh (size meta) 0 Edh H0
                ltac:(lia)
                ltac:(fold n; rewrite Ldh; unfold item_data_field; lia)
                ltac:(fold n; lia)) as [Ecp Epos].
  pose proof (copy_names_same_below (names_list c) hdr (size meta) 0 H0
                ltac:(lia)) as Hsb.
  destruct (copy_names hdr (size meta) (names_list c) 0) as [m2 pos].
  cbn [fst snd] in *. fold n in Epos.
  split; [reflexivity|].
  split; [cbn [set_src_names src_names_len]; lia|]. split.
  - unfold block_of. cbn [set_src_names data]. rewrite Ecp.
    replace (size meta + item_data_field + 0)
      with (size meta + item_data_field) by lia.
    apply mem_read_back;
      [symmetry; apply names_concat_length | unfold item_data_field; lia|].
    rewrite Ldh. unfold item_data_field. lia.
  - exists old. split; [apply blob_ok_readable; exact Hs|].
    assert (Hb : blob_ok (set_src_names m2 (size meta + item_data_field) pos)
                   (old ++ [{| item_offset := size meta;
                               item_size := KDBUS_PART_HEADER_SIZE + n;
                               item_type := KDBUS_ITEM_NAMES |}])).
    { pose proof (item_filled m1 old (size meta) _ KDBUS_ITEM_NAMES
                    (KDBUS_PART_HEADER_SIZE + n)
                    (set_src_names m2 (size meta + item_data_field) pos)
                    Hslot Hsb) as Hf.
      rewrite Ew, (wrap64_small KDBUS_ITEM_NAMES) in Hf by assumption.
      apply Hf.
      - unfold KDBUS_ITEM_HEADER_SIZE, KDBUS_PART_HEADER_SIZE, item_data_field.
        lia.
      - rewrite Hal, Es. f_equal.
        unfold KDBUS_PART_HEADER_SIZE, item_data_field. lia. }
    destruct (blob_ok_readable _ _ Hb) as [Hr _].
    rewrite length_app in Hr. cbn [length] in Hr.
    rewrite Nat.add_1_r in Hr. exact Hr.
Qed.

End Payload.

(** * Capabilities *)




Lemma append_data_round_trip_witness :
  Forall call_sane [] /\ allocator_sane sample_allocator
  /\ fst (kdbus_meta_append_data sample_allocator
            (kdbus_meta_appends (K := sample_kdbus_h) kdbus_meta_zero [])
            7 [Byte.x61; Byte.x62; Byte.x63] 3) = 0
  /\ mem_read
       (block_of
          (snd (kdbus_meta_append_data sample_allocator
                  (kdbus_meta_appends (K := sample_kdbus_h) kdbus_meta_zero [])
                  7 [Byte.x61; Byte.x62; Byte.x63] 3)))
       (size (kdbus_meta_appends (K := sample_kdbus_h) kdbus_meta_zero [])
        + item_data_field) 3
     = mem_read [Byte.x61; Byte.x62; Byte.x63] 0 3.
Proof.
  split; [apply Forall_nil|]. split; [apply sample_allocator_sane|].
  split; [reflexivity|].
  destruct (append_data_round_trip (K := sample_kdbus_h) []
              sample_allocator 7 [Byte.x61; Byte.x62; Byte.x63] 3
              (Forall_nil _) sample_allocator_sane
              ltac:(lia) ltac:(cbn; lia) ltac:(lia) eq_refl)
    as (old & _ & _ & H).
  exact H.
Defined.

Lemma src_names_round_trip_witness :
  Forall call_sane [] /\ world_sane sample_world
  /\ conn_sane (Some named_conn) /\ names_list named_conn <> []
  /\ src_names_len
       (snd (kdbus_meta_append_src_names (K := sample_kdbus_h) sample_world
               (kdbus_meta_appends (K := sample_kdbus_h) kdbus_meta_zero [])
               (Some named_conn)))
     = names_bytes (names_list named_conn).
Proof.
  assert (Hc : conn_sane (Some named_conn)).
  { cbn. unfold NAMES_LIMIT. lia. }
  assert (Hn : names_list named_conn <> []) by discriminate.
  split; [apply Forall_nil|]. split; [apply sample_world_sane|].
  split; [exact Hc|]. split; [exact Hn|].
  exact (proj1 (proj2 (src_names_round_trip (K := sample_kdbus_h) []
                         sample_world named_conn (Forall_nil _)
                         sample_world_sane Hc Hn eq_refl))).
Defined.
